(** * The bilibili widget of glance: per-source TTL cache, fetch and merge

    A shallow embedding of [internal/glance/widget-bilibili.go]: the
    request-spacing HTTP client, the fetcher that turns a list of UIDs
    into a list of videos and an aggregate error, and the widget's
    [initialize], [update] and [Render] methods, followed by the
    properties that the design document states about them. *)

From Stdlib Require Import ZArith String Ascii List Bool Lia Sorting.Sorted Permutation.
From stdpp Require Import base option gmap strings list sorting.

Local Open Scope string_scope.
Local Open Scope list_scope.
Local Open Scope Z_scope.

(** ** Go runtime: results and panics *)

(** A Go statement either completes or panics (index out of range, slice
    bounds out of range, assignment to an entry of a nil map).  [Panic]
    carries no state: nothing below observes a widget after a panic. *)
Inductive outcome (A : Type) : Type :=
| Done (a : A)
| Panic.
Arguments Done {A} a.
Arguments Panic {A}.

Definition obind {A B} (m : outcome A) (k : A -> outcome B) : outcome B :=
  match m with
  | Done a => k a
  | Panic => Panic
  end.

Declare Scope outcome_scope.
Delimit Scope outcome_scope with outcome.
Notation "'let*' x ':=' m 'in' k" := (obind m (fun x => k))
  (at level 10, x name, m at level 100, k at level 200)
  : outcome_scope.
Local Open Scope outcome_scope.

(** Go's int64 arithmetic wraps around. *)
Definition wrap64 (z : Z) : Z := (z + 2 ^ 63) mod 2 ^ 64 - 2 ^ 63.

(** ** Package [time] *)

(** A [time.Time] is modelled by the instant it denotes, an integer number
    of nanoseconds on one time line, counted from the Unix epoch; a
    [time.Duration] is Go's int64 count of nanoseconds.  Go keeps the
    seconds of a [Time] as an int64 count from January 1 of year 1, so the
    instants it can hold are bounded and [Unix] wraps around.  [Add] is
    modelled without the saturation Go applies at the ends of the
    representable range. *)
Module time.
Abbreviation Time := Z (only parsing).
Abbreviation Duration := Z (only parsing).

Definition Millisecond : Duration := 1000000.
Definition Hour : Duration := 3600 * 1000000000.

Definition maxDuration : Duration := 2 ^ 63 - 1.
Definition minDuration : Duration := - 2 ^ 63.

(** [t.After(u)] *)
Definition After (t u : Time) : bool := u <? t.

(** [t.Add(d)] *)
Definition Add (t : Time) (d : Duration) : Time := t + d.

(** [t.Sub(u)]: the difference, saturated to the int64 range. *)
Definition Sub (t u : Time) : Duration :=
  Z.min maxDuration (Z.max minDuration (t - u)).

(** The seconds from January 1 of year 1 to the Unix epoch. *)
Definition unixToInternal : Z := 62135596800.

(** [time.Unix(sec, nsec)], for int64 arguments: [nsec] is brought into
    the range of one second, with Go's division that truncates toward
    zero, and the second is stored as [sec + unixToInternal], an int64
    sum that wraps around. *)
Definition Unix (sec nsec : Z) : Time :=
  let '(sec, nsec) :=
    if (nsec <? 0) || (1000000000 <=? nsec) then
      let n := Z.quot nsec 1000000000 in
      let sec := wrap64 (sec + n) in
      let nsec := nsec - n * 1000000000 in
      if nsec <? 0 then (wrap64 (sec - 1), nsec + 1000000000)
      else (sec, nsec)
    else (sec, nsec) in
  (wrap64 (sec + unixToInternal) - unixToInternal) * 1000000000 + nsec.
End time.

(** ** Package [strings] *)

(** [s[n:]] for [n <= len(s)] *)
Fixpoint string_drop (n : nat) (s : string) : string :=
  match n, s with
  | O, _ => s
  | S n', String _ s' => string_drop n' s'
  | S _, EmptyString => EmptyString
  end.

Module strings.
(** [len(s) >= len(suffix) && s[len(s)-len(suffix):] == suffix] *)
Definition HasSuffix (s suffix : string) : bool :=
  (String.length suffix <=? String.length s)%nat
  && String.eqb (string_drop (String.length s - String.length suffix) s) suffix.
End strings.

(** ** The data model *)

(** The [video] struct, with the fields that the fetcher fills in. *)
Record video : Type := mkVideo {
  ThumbnailUrl : string;
  Title : string;
  Url : string;
  Author : string;
  AuthorUrl : string;
  TimePosted : time.Time
}.

Abbreviation videoList := (list video) (only parsing).

(** Errors.  The two sentinels of the package and the errors this file
    builds from them with [fmt.Errorf]; each constructor stands for one
    format string, its arguments for the verbs.
    - [ErrExternal]: an error of the transport, the decoder or the pool;
    - [ErrPoolNoContent e]: ["%w: %v"] with [errNoContent] and [e];
    - [ErrMissingVideos n]: ["%w: missing videos from %d users"] with
      [errPartialContent] and [n];
    - [ErrFetchFailed e]: the message of [update] wrapping [e] with [%w];
    - [ErrNoVideoData]: the message [Render] sets when no video is left. *)
Inductive error : Type :=
| errNoContent
| errPartialContent
| ErrExternal (msg : string)
| ErrPoolNoContent (cause : error)
| ErrMissingVideos (failed : nat)
| ErrFetchFailed (cause : error)
| ErrNoVideoData.

Definition error_eqb (a b : error) : bool :=
  match a, b with
  | errNoContent, errNoContent => true
  | errPartialContent, errPartialContent => true
  | _, _ => false
  end.

(** [errors.Is(err, target)] for a sentinel [target]: walk the [%w] chain. *)
Fixpoint errors_Is (e : error) (target : error) : bool :=
  error_eqb e target ||
  match e with
  | ErrPoolNoContent _ => error_eqb errNoContent target
  | ErrMissingVideos _ => error_eqb errPartialContent target
  | ErrFetchFailed cause => errors_Is cause target
  | _ => false
  end.

Module vlist.
(** One element of [Data.List.Vlist] in the API's JSON answer. *)
Record item : Type := mkItem {
  Title : string;
  Author : string;
  Aid : Z;
  Bvid : string;
  Pic : string;
  Created : Z
}.
End vlist.

(** [bilibiliVideoResponse]; the nesting [Data.List.Vlist] is flattened. *)
Record bilibiliVideoResponse : Type := mkResponse {
  Code : Z;
  Message : string;
  Vlist : list vlist.item
}.

Record bilibiliUPConfig : Type := mkUP {
  UID : string;
  Cache : time.Duration
}.

(** The anonymous struct stored in [cachedVideos]. *)
Record cacheEntry : Type := mkEntry {
  videos : videoList;
  expireAt : time.Time
}.

(** [bilibiliWidget].  The embedded [widgetBase] is left out: no method
    below reads it.  [cachedVideos] is [None] for Go's nil map. *)
Record bilibiliWidget : Type := mkWidget {
  Videos : videoList;
  Style : string;
  CollapseAfter : Z;
  CollapseAfterRows : Z;
  UPs : list bilibiliUPConfig;
  UpdateInterval : time.Duration;
  Limit : Z;
  cachedVideos : option (gmap string cacheEntry);
  Error : option error
}.

Definition withVideos (w : bilibiliWidget) (vs : videoList) : bilibiliWidget :=
  mkWidget vs (Style w) (CollapseAfter w) (CollapseAfterRows w) (UPs w)
           (UpdateInterval w) (Limit w) (cachedVideos w) (Error w).

Definition withCache (w : bilibiliWidget) (c : option (gmap string cacheEntry))
  : bilibiliWidget :=
  mkWidget (Videos w) (Style w) (CollapseAfter w) (CollapseAfterRows w) (UPs w)
           (UpdateInterval w) (Limit w) c (Error w).

Definition withError (w : bilibiliWidget) (e : option error) : bilibiliWidget :=
  mkWidget (Videos w) (Style w) (CollapseAfter w) (CollapseAfterRows w) (UPs w)
           (UpdateInterval w) (Limit w) (cachedVideos w) e.

(** Reading a Go map: a nil map reads as an empty one. *)
Definition mapGet (m : option (gmap string cacheEntry)) (k : string)
  : option cacheEntry :=
  match m with
  | Some g => g !! k
  | None => None
  end.

(** Writing a Go map: assignment to an entry of a nil map panics. *)
Definition mapPut (m : option (gmap string cacheEntry)) (k : string)
  (e : cacheEntry) : outcome (option (gmap string cacheEntry)) :=
  match m with
  | Some g => Done (Some (<[k := e]> g))
  | None => Panic
  end.

(** ** Packages [net/url] and [net/http]

    [http.NewRequest("GET", rawURL, nil)] fails exactly when
    [url.Parse(rawURL)] does.  For the URLs built below (a fixed https
    prefix up to the query, then text containing the UID) Go's parser has
    two ways to fail: the part before the first ['#'] contains an ASCII
    control byte, or the fragment after it holds a ['%'] that is not
    followed by two hexadecimal digits. *)
Module url.
Definition isCTL (c : ascii) : bool :=
  let n := nat_of_ascii c in ((n <? 32) || (n =? 127))%nat.

Fixpoint stringContainsCTLByte (s : string) : bool :=
  match s with
  | EmptyString => false
  | String c s' => isCTL c || stringContainsCTLByte s'
  end.

Definition ishex (c : ascii) : bool :=
  let n := nat_of_ascii c in
  ((48 <=? n) && (n <=? 57) || (97 <=? n) && (n <=? 102)
   || (65 <=? n) && (n <=? 70))%nat.

(** The well-formedness pass of [unescape]. *)
Fixpoint validEscapes (s : string) : bool :=
  match s with
  | EmptyString => true
  | String c s' =>
      if Ascii.eqb c "%"%char then
        match s' with
        | String a (String b rest) => ishex a && ishex b && validEscapes rest
        | _ => false
        end
      else validEscapes s'
  end.

(** [strings.Cut(rawURL, "#")] *)
Fixpoint cutFragment (s : string) : string * option string :=
  match s with
  | EmptyString => (EmptyString, None)
  | String c s' =>
      if Ascii.eqb c "#"%char then (EmptyString, Some s')
      else let '(u, frag) := cutFragment s' in (String c u, frag)
  end.

(** Whether [url.Parse] accepts [rawURL]. *)
Definition parses (rawURL : string) : bool :=
  let '(u, frag) := cutFragment rawURL in
  negb (stringContainsCTLByte u) &&
  match frag with
  | Some f => validEscapes f
  | None => true
  end.
End url.

Module http.
Record Request : Type := mkRequest {
  Method : string;
  URL : string;
  Header : list (string * string)
}.

Definition NewRequest (method rawURL : string) : option Request :=
  if url.parses rawURL then Some (mkRequest method rawURL []) else None.

(** [request.Header.Add(key, value)] *)
Definition HeaderAdd (r : Request) (key value : string) : Request :=
  mkRequest (Method r) (URL r) (Header r ++ [(key, value)]).
End http.

(** ** The delayed HTTP client *)

Module delayed.
(** [delayedHTTPClient]; the wrapped [client] is the caller's
    [transport] below. *)
Record delayedHTTPClient : Type := mkClient {
  delay : time.Duration;
  lastReq : time.Time
}.

(** How the clock moves during one call of [Do], which the code does not
    control: the time that passes before [time.Since] reads the clock
    (counted from the previous reading, so it includes the previous
    request), how much longer than asked [time.Sleep] pauses, and the
    time between the end of the pause and [time.Now]. *)
Record pace : Type := mkPace {
  arrive : Z;
  oversleep : Z;
  lag : Z
}.

Definition pace_ok (p : pace) : Prop :=
  0 <= arrive p /\ 0 <= oversleep p /\ 0 <= lag p.

(** [time.Sleep(d)] pauses for at least [d], and not at all for
    [d <= 0]; the result is the pause. *)
Definition Sleep (d : time.Duration) (over : Z) : Z :=
  if d <=? 0 then 0 else d + over.

(** The end of [Do]: the answer of the wrapped client, with a nil
    response whenever it reports an error. *)
Definition passOn {R : Type} (answer : option R * option error)
  : option R * option error :=
  match snd answer with
  | Some err => (None, Some err)
  | None => (fst answer, None)
  end.

(** [Do]: the client after the call, the clock reading taken by
    [time.Now] (the time the request is issued), and the result. *)
Definition Do {R : Type} (transport : http.Request -> option R * option error)
  (c : delayedHTTPClient) (clock : time.Time) (p : pace)
  (req : http.Request)
  : delayedHTTPClient * time.Time * (option R * option error) :=
  let t0 := clock + arrive p in
  let elapsed := time.Sub t0 (lastReq c) in
  let t1 :=
    if elapsed <? delay c then
      let sleepTime := wrap64 (delay c - elapsed) in
      t0 + Sleep sleepTime (oversleep p)
    else t0 in
  let t2 := t1 + lag p in
  (mkClient (delay c) t2, t2, passOn (transport req)).

(** Calls issued one after the other by one caller; the result lists
    the times at which the requests were issued. *)
Fixpoint DoAll {R : Type} (transport : http.Request -> option R * option error)
  (c : delayedHTTPClient) (clock : time.Time)
  (calls : list (pace * http.Request)) : list time.Time :=
  match calls with
  | [] => []
  | (p, req) :: rest =>
      let '(c', t, _) := Do transport c clock p req in
      t :: DoAll transport c' t rest
  end.

(** The zero [time.Time], January 1 of year 1. *)
Definition zeroTime : time.Time := time.Unix (-62135596800) 0.

Definition bilibiliHTTPClient : delayedHTTPClient :=
  mkClient (500 * time.Millisecond) zeroTime.
End delayed.

(** ** Collaborators outside this file *)

Definition newerEq : relation video :=
  fun a b => TimePosted b <= TimePosted a.

#[global] Instance newerEq_dec : RelDecision newerEq.
Proof. intros a b. unfold newerEq. apply _. Defined.

(** A video goes in front of the first video that is not newer than it. *)
Fixpoint insertByNewest (x : video) (sorted : videoList) : videoList :=
  match sorted with
  | [] => [x]
  | y :: rest =>
      if decide (newerEq x y) then x :: y :: rest
      else y :: insertByNewest x rest
  end.

(** Modelled from the spec: [videoList.sortByNewest] is declared in another
    file of the package.  "Sort key is publish timestamp, descending; ties
    broken by stable input order": an insertion sort, from the right, in
    which a video stays in front of the later videos of the same publish
    time. *)
Fixpoint sortByNewest (v : videoList) : videoList :=
  match v with
  | [] => []
  | x :: rest => insertByNewest x (sortByNewest rest)
  end.

(** What the network does during one call of the fetcher: whether the
    pool itself fails, and what the decoding task returns for the request
    at each position of the job (Go's zero response comes with an error). *)
Record network : Type := mkNetwork {
  poolErr : option error;
  answer : nat -> http.Request -> bilibiliVideoResponse * option error
}.

(** Modelled from the spec: [workerPoolDo] and [newJob] are declared in
    another file of the package.  "Return two order-aligned sequences:
    results and errors; output index i always corresponds to input index
    i.  A pool-level error aborts the whole call, returning no partial
    results." *)
Definition workerPoolDo (net : network) (requests : list http.Request)
  : list bilibiliVideoResponse * list (option error) * option error :=
  match poolErr net with
  | Some e => ([], [], Some e)
  | None =>
      let outs := imap (answer net) requests in
      (map fst outs, map snd outs, None)
  end.

(** ** [fetchBilibiliUserVideos] *)

Definition apiUrl (uid : string) : string :=
  "https://api.bilibili.com/x/space/arc/search?mid=" +:+ uid
  +:+ "&ps=30&tid=0&pn=1&order=pubdate".

Definition userAgent : string :=
  "Mozilla/5.0 (Macintosh; Intel Mac OS X 10_15_7) AppleWebKit/537.36 (KHTML, like Gecko) Chrome/122.0.0.0 Safari/537.36".

Definition addHeaders (uid : string) (request : http.Request) : http.Request :=
  let request := http.HeaderAdd request "User-Agent" userAgent in
  let request := http.HeaderAdd request "Accept" "application/json, text/plain, */*" in
  let request := http.HeaderAdd request "Accept-Language" "zh-CN,zh;q=0.9,en;q=0.8" in
  let request := http.HeaderAdd request "Origin" "https://space.bilibili.com" in
  http.HeaderAdd request "Referer" ("https://space.bilibili.com/" +:+ uid +:+ "/video").

(** The first loop: one request per UID, a UID whose request cannot be
    created is skipped ([continue]). *)
Fixpoint buildRequests (uids : list string) (requests : list http.Request)
  : list http.Request :=
  match uids with
  | [] => requests
  | uid :: rest =>
      match http.NewRequest "GET" (apiUrl uid) with
      | None => buildRequests rest requests
      | Some request => buildRequests rest (requests ++ [addHeaders uid request])
      end
  end.

Definition authorUrl (uid : string) : string :=
  "https://space.bilibili.com/" +:+ uid.

Definition toVideo (uid : string) (v : vlist.item) : video :=
  {| ThumbnailUrl := vlist.Pic v;
     Title := vlist.Title v;
     Url := "https://www.bilibili.com/video/" +:+ vlist.Bvid v;
     Author := vlist.Author v;
     AuthorUrl := authorUrl uid;
     TimePosted := time.Unix (vlist.Created v) 0 |}.

(** The second loop, [for i := range responses], from index [i] on.
    [errs[i]] and [uids[i]] are Go index expressions: out of range they
    panic. *)
Fixpoint collectVideos (uids : list string) (errs : list (option error))
  (i : nat) (responses : list bilibiliVideoResponse)
  (videos : videoList) (failed : nat) : outcome (videoList * nat) :=
  match responses with
  | [] => Done (videos, failed)
  | response :: rest =>
      match errs !! i, uids !! i with
      | Some err, Some uid =>
          match err with
          | Some _ => collectVideos uids errs (S i) rest videos (S failed)
          | None =>
              if negb (Code response =? 0) then
                collectVideos uids errs (S i) rest videos (S failed)
              else
                collectVideos uids errs (S i) rest
                  (videos ++ map (toVideo uid) (Vlist response)) failed
          end
      | _, _ => Panic
      end
  end.

(** The result is Go's pair: the videos (the empty list for nil) and the
    error (None for nil). *)
Definition fetchBilibiliUserVideos (net : network) (uids : list string)
  : outcome (videoList * option error) :=
  let requests := buildRequests uids [] in
  let '(responses, errs, err) := workerPoolDo net requests in
  match err with
  | Some e => Done ([], Some (ErrPoolNoContent e))
  | None =>
      let* r := collectVideos uids errs 0 responses [] 0 in
      let '(videos, failed) := r in
      if (length videos =? 0)%nat then Done ([], Some errNoContent)
      else
        let videos := sortByNewest videos in
        if (0 <? failed)%nat then Done (videos, Some (ErrMissingVideos failed))
        else Done (videos, None)
  end.

(** ** The widget *)

(** [initialize]; the title set on the embedded [widgetBase] and the
    logging are left out.  The result pairs the widget with the returned
    error, which is always nil. *)
Definition initialize (widget : bilibiliWidget) : bilibiliWidget * option error :=
  let cachedVideos' : option (gmap string cacheEntry) := Some ∅ in
  let Limit' := if Limit widget <=? 0 then 25 else Limit widget in
  let CollapseAfterRows' :=
    if (CollapseAfterRows widget =? 0) || (CollapseAfterRows widget <? -1)
    then 4 else CollapseAfterRows widget in
  let CollapseAfter' :=
    if (CollapseAfter widget =? 0) || (CollapseAfter widget <? -1)
    then 7 else CollapseAfter widget in
  (mkWidget (Videos widget) (Style widget) CollapseAfter' CollapseAfterRows'
            (UPs widget) (UpdateInterval widget) Limit' cachedVideos'
            (Error widget),
   None).

(** The helper [contains]. *)
Fixpoint contains (slice : list string) (str : string) : bool :=
  match slice with
  | [] => false
  | s :: rest => if String.eqb s str then true else contains rest str
  end.

(** Development mode: every UID is appended to [needUpdate]. *)
Fixpoint forceAll (ups : list bilibiliUPConfig) (needUpdate : list string)
  : list string :=
  match ups with
  | [] => needUpdate
  | up :: rest => forceAll rest (needUpdate ++ [UID up])
  end.

(** Normal mode: the loop that checks the cache of every UP. *)
Fixpoint checkCache (now : time.Time) (cache : option (gmap string cacheEntry))
  (ups : list bilibiliUPConfig) (needUpdate : list string)
  (allVideos : videoList) : list string * videoList :=
  match ups with
  | [] => (needUpdate, allVideos)
  | up :: rest =>
      match mapGet cache (UID up) with
      | None => checkCache now cache rest (needUpdate ++ [UID up]) allVideos
      | Some entry =>
          if time.After now (expireAt entry) then
            checkCache now cache rest (needUpdate ++ [UID up]) allVideos
          else
            checkCache now cache rest needUpdate (allVideos ++ videos entry)
      end
  end.

(** The first part of [update]: [needUpdate] and the cached videos that
    are still valid. *)
Definition staleSources (isDevelopment : bool) (now : time.Time)
  (widget : bilibiliWidget) : list string * videoList :=
  if isDevelopment then (forceAll (UPs widget) [], [])
  else checkCache now (cachedVideos widget) (UPs widget) [] [].

(** The cache duration [update] computes for one UP. *)
Definition cacheDuration (isDevelopment : bool) (widget : bilibiliWidget)
  (up : bilibiliUPConfig) : time.Duration :=
  let cacheDuration := 2 * time.Hour in
  if negb isDevelopment then
    let cacheDuration :=
      if 0 <? UpdateInterval widget then UpdateInterval widget
      else cacheDuration in
    let cacheDuration :=
      if 0 <? Cache up then Cache up else cacheDuration in
    cacheDuration
  else 0.

(** The videos of [newVideos] that [update] attributes to one UP. *)
Definition upVideosOf (newVideos : videoList) (up : bilibiliUPConfig)
  : videoList :=
  List.filter (fun v => strings.HasSuffix (AuthorUrl v) ("/" +:+ UID up))
    newVideos.

(** The loop that updates the cache after a fetch. *)
Fixpoint refreshCache (isDevelopment : bool) (now : time.Time)
  (widget : bilibiliWidget) (needUpdate : list string) (newVideos : videoList)
  (ups : list bilibiliUPConfig) (cache : option (gmap string cacheEntry))
  (allVideos : videoList)
  : outcome (option (gmap string cacheEntry) * videoList) :=
  match ups with
  | [] => Done (cache, allVideos)
  | up :: rest =>
      if negb (contains needUpdate (UID up)) then
        refreshCache isDevelopment now widget needUpdate newVideos rest
          cache allVideos
      else
        let upVideos := upVideosOf newVideos up in
        let entry :=
          {| videos := upVideos;
             expireAt := time.Add now (cacheDuration isDevelopment widget up) |} in
        let* cache' := mapPut cache (UID up) entry in
        refreshCache isDevelopment now widget needUpdate newVideos rest
          cache' (allVideos ++ upVideos)
  end.

(** How far one pass of [update] gets before the final sort: it returns
    early with the fetcher's error, or it reaches the merge with the cache
    and the list [allVideos] it has built. *)
Inductive pass : Type :=
| Failed (err : error)
| Merged (cache : option (gmap string cacheEntry)) (allVideos : videoList).

Definition aggregate (isDevelopment : bool) (now : time.Time) (net : network)
  (widget : bilibiliWidget) : outcome pass :=
  let '(needUpdate, allVideos) := staleSources isDevelopment now widget in
  if (0 <? length needUpdate)%nat then
    let* r := fetchBilibiliUserVideos net needUpdate in
    match r with
    | (_, Some err) => Done (Failed err)
    | (newVideos, None) =>
        let* r := refreshCache isDevelopment now widget needUpdate newVideos
                    (UPs widget) (cachedVideos widget) allVideos in
        Done (Merged (fst r) (snd r))
    end
  else Done (Merged (cachedVideos widget) allVideos).

(** The end of [update]: sort, then cut to the limit.  The slice
    expression [allVideos[:Limit]] panics for a negative limit. *)
Definition sortAndLimit (limit : Z) (allVideos : videoList) : outcome videoList :=
  let allVideos := sortByNewest allVideos in
  if limit <? Z.of_nat (length allVideos) then
    if limit <? 0 then Panic
    else Done (take (Z.to_nat limit) allVideos)
  else Done allVideos.

(** [update], with [isDevelopment] the package variable, [now] the
    reading of [time.Now] and [net] the behaviour of the network. *)
Definition update (isDevelopment : bool) (now : time.Time) (net : network)
  (widget : bilibiliWidget) : outcome bilibiliWidget :=
  let* p := aggregate isDevelopment now net widget in
  match p with
  | Failed err => Done (withError widget (Some (ErrFetchFailed err)))
  | Merged cache allVideos =>
      let* allVideos := sortAndLimit (Limit widget) allVideos in
      Done (withVideos (withCache widget cache) allVideos)
  end.

(** What [Render] does to the widget; the template is left out. *)
Definition Render (isDevelopment : bool) (now : time.Time) (net : network)
  (widget : bilibiliWidget) : outcome bilibiliWidget :=
  if (length (Videos widget) =? 0)%nat then
    let* widget := update isDevelopment now net widget in
    if (length (Videos widget) =? 0)%nat then
      Done (withError widget (Some ErrNoVideoData))
    else Done widget
  else Done widget.

(** ** Vocabulary of the properties *)

(** The test the cache check applies to one UID: no entry, or an entry
    whose expiry [now] is after. *)
Definition expired (now : time.Time) (cache : option (gmap string cacheEntry))
  (uid : string) : bool :=
  match mapGet cache uid with
  | None => true
  | Some entry => time.After now (expireAt entry)
  end.

(** The cached videos of a UID. *)
Definition cachedOf (cache : option (gmap string cacheEntry)) (uid : string)
  : videoList :=
  match mapGet cache uid with
  | None => []
  | Some entry => videos entry
  end.

(** The request the fetcher sends for a UID whose URL parses. *)
Definition requestOf (uid : string) : http.Request :=
  addHeaders uid (http.mkRequest "GET" (apiUrl uid) []).

(** Whether [http.NewRequest] succeeds for a UID. *)
Definition buildable (uid : string) : bool := url.parses (apiUrl uid).

(** A source fails when its task returns an error or its answer carries a
    non-zero code. *)
Definition sourceFailed (o : bilibiliVideoResponse * option error) : bool :=
  match snd o with
  | Some _ => true
  | None => negb (Code (fst o) =? 0)
  end.

(** The videos one outcome contributes when it is attributed to [uid]. *)
Definition itemsOf (uid : string) (o : bilibiliVideoResponse * option error)
  : videoList :=
  if sourceFailed o then [] else map (toVideo uid) (Vlist (fst o)).

(** The outcome of every source, in request order, when every request
    could be built. *)
Definition outcomes (net : network) (uids : list string)
  : list (bilibiliVideoResponse * option error) :=
  imap (answer net) (map requestOf uids).

Definition failedSources (net : network) (uids : list string) : nat :=
  length (List.filter sourceFailed (outcomes net uids)).

(** The videos obtained from all sources, before sorting. *)
Definition obtained (net : network) (uids : list string) : videoList :=
  concat (zip_with itemsOf uids (outcomes net uids)).

(** Whether an error returned by the fetcher is the no-content error,
    the partial-content error. *)
Definition isNoContent (err : option error) : bool :=
  match err with
  | Some e => errors_Is e errNoContent
  | None => false
  end.

Definition isPartialContent (err : option error) : bool :=
  match err with
  | Some e => errors_Is e errPartialContent
  | None => false
  end.

(** Whether a UID contains a slash. *)
Fixpoint hasSlash (s : string) : bool :=
  match s with
  | EmptyString => false
  | String c s' => Ascii.eqb c "/"%char || hasSlash s'
  end.

(** ** Concrete runs *)

Definition item (title : string) (created : Z) : vlist.item :=
  vlist.mkItem title "author" 1 ("BV" +:+ title) "pic.jpg" created.

Definition okResponse (l : list vlist.item) : bilibiliVideoResponse :=
  mkResponse 0 "0" l.

Definition refusedResponse : bilibiliVideoResponse :=
  mkResponse (-400) "request error" [].

(** A fresh widget with three UPs, no overrides and a limit of 5. *)
Definition threeUPs : bilibiliWidget :=
  fst (initialize
         (mkWidget [] "" 0 0 [mkUP "1" 0; mkUP "2" 0; mkUP "3" 0] 0 5 None None)).

(** UPs 1 and 2 answer with three videos each, every other UP with a
    non-zero code. *)
Definition twoOfThree : network :=
  mkNetwork None (fun _ request =>
    if String.eqb (http.URL request) (apiUrl "1") then
      (okResponse [item "a1" 10; item "a2" 20; item "a3" 30], None)
    else if String.eqb (http.URL request) (apiUrl "2") then
      (okResponse [item "b1" 15; item "b2" 25; item "b3" 35], None)
    else (refusedResponse, None)).

(** A UID followed by a tab, as a double-quoted YAML scalar can hold. *)
Definition tabbedUID : string := String "1"%char (String "009"%char EmptyString).

(** UP 2 answers with one video, every other request is refused. *)
Definition onlyTwo : network :=
  mkNetwork None (fun _ request =>
    if String.eqb (http.URL request) (apiUrl "2") then
      (okResponse [item "b1" 15], None)
    else (refusedResponse, None)).

(** UP 1 is refused, UP 2 answers with an empty list. *)
Definition refusedAndEmpty : network :=
  mkNetwork None (fun _ request =>
    if String.eqb (http.URL request) (apiUrl "1") then (refusedResponse, None)
    else (okResponse [], None)).

(** A fresh widget with two UPs and a limit of 5. *)
Definition twoUPs : bilibiliWidget :=
  fst (initialize (mkWidget [] "" 0 0 [mkUP "1" 0; mkUP "2" 0] 0 5 None None)).

(** A fresh widget with one UP and a limit of 5. *)
Definition oneUP : bilibiliWidget :=
  fst (initialize (mkWidget [] "" 0 0 [mkUP "1" 0] 0 5 None None)).

(** Every UP answers with one video. *)
Definition oneVideoEach : network :=
  mkNetwork None (fun _ _ => (okResponse [item "a1" 10], None)).

(** Every UP answers with code 0 and an empty list. *)
Definition emptyAnswers : network :=
  mkNetwork None (fun _ _ => (okResponse [], None)).

(** The widget [oneUP] after a first pass at time 0 in which its UP
    answered with one video. *)
Definition afterFirstPass : bilibiliWidget :=
  match update false 0 oneVideoEach oneUP with
  | Done widget => widget
  | Panic => oneUP
  end.


(** The widget [threeUPs] after the pass in which one of its three
    sources failed. *)
Definition afterFailedPass : bilibiliWidget :=
  withError threeUPs (Some (ErrFetchFailed (ErrMissingVideos 1))).

(** ... and after a second pass, at time 200, in which every source
    answered with one video. *)
Definition afterSecondPass : bilibiliWidget :=
  match update false 200 oneVideoEach afterFailedPass with
  | Done widget => widget
  | Panic => afterFailedPass
  end.

(** What the fetcher returns for UPs 1 and 2 on [twoOfThree]. *)
Definition fetchedOfTwo : videoList :=
  match fetchBilibiliUserVideos twoOfThree ["1"; "2"] with
  | Done (vs, _) => vs
  | Panic => []
  end.

(** A wrapped client that answers every request with a refusal. *)
Definition refusing (_ : http.Request)
  : option bilibiliVideoResponse * option error :=
  (Some refusedResponse, None).

(** Two calls with no time passing but the pauses of [Do] itself. *)
Definition backToBack : list (delayed.pace * http.Request) :=
  [(delayed.mkPace 0 0 0, requestOf "1"); (delayed.mkPace 0 0 0, requestOf "2")].

(** Every UP is refused. *)
Definition refuseAll : network :=
  mkNetwork None (fun _ _ => (refusedResponse, None)).

(** How the pass of [twoUPs] at time 100 on [twoOfThree] reaches the
    merge, and how the second pass of [afterFailedPass] does. *)
Definition passOf (r : outcome pass) : pass :=
  match r with
  | Done p => p
  | Panic => Failed errNoContent
  end.

Definition cacheOf (p : pass) : option (gmap string cacheEntry) :=
  match p with
  | Merged cache _ => cache
  | Failed _ => None
  end.

Definition mergedOf (p : pass) : videoList :=
  match p with
  | Merged _ allVideos => allVideos
  | Failed _ => []
  end.

Definition passOfTwo : pass := passOf (aggregate false 100 twoOfThree twoUPs).

Definition secondPass : pass :=
  passOf (aggregate false 200 oneVideoEach afterFailedPass).

(** ** Vocabulary of the further properties *)

(** Passes of [update] run one after the other, each with its own clock
    reading and its own behaviour of the network. *)
Fixpoint updates (isDevelopment : bool) (passes : list (time.Time * network))
  (widget : bilibiliWidget) : outcome bilibiliWidget :=
  match passes with
  | [] => Done widget
  | (now, net) :: rest =>
      let* widget' := update isDevelopment now net widget in
      updates isDevelopment rest widget'
  end.

(** A UID made of decimal digits only. *)
Definition isDigit (c : ascii) : bool :=
  let n := nat_of_ascii c in ((48 <=? n) && (n <=? 57))%nat.

Fixpoint allDigits (s : string) : bool :=
  match s with
  | EmptyString => true
  | String c s' => isDigit c && allDigits s'
  end.

(** A byte that neither ends the part of a URL that is checked for
    control bytes nor is one. *)
Definition plainByte (c : ascii) : bool :=
  negb (url.isCTL c) && negb (Ascii.eqb c "#"%char).

Fixpoint plain (s : string) : bool :=
  match s with
  | EmptyString => true
  | String c s' => plainByte c && plain s'
  end.


(** Two widgets with the same configuration. *)
Definition sameConfig (a b : bilibiliWidget) : Prop :=
  Style b = Style a
  /\ CollapseAfter b = CollapseAfter a
  /\ CollapseAfterRows b = CollapseAfterRows a
  /\ UPs b = UPs a
  /\ UpdateInterval b = UpdateInterval a
  /\ Limit b = Limit a.

(** A video list as [update] leaves it: newest first and within the
    limit. *)
Definition listOk (limit : Z) (vs : videoList) : Prop :=
  StronglySorted newerEq vs /\ Z.of_nat (length vs) <= limit.


(** ** Concrete runs for the further properties *)

(** What the fetcher returns for UPs 1, 2 and 3 on [twoOfThree]. *)
Definition fetchedOfThree : videoList :=
  match fetchBilibiliUserVideos twoOfThree ["1"; "2"; "3"] with
  | Done (vs, _) => vs
  | Panic => []
  end.

(** A widget as the configuration loader leaves it, before [initialize]. *)
Definition rawWidget : bilibiliWidget :=
  mkWidget [] "" 0 0 [mkUP "1" 0] 0 5 None None.

(** A widget with a negative limit and an allocated cache. *)
Definition negativeLimit : bilibiliWidget :=
  mkWidget [] "" 0 0 [] 0 (-1) (Some ∅) None.

(** An initialised widget without UPs. *)
Definition noUPs : bilibiliWidget :=
  fst (initialize (mkWidget [] "" 0 0 [] 0 0 None None)).

(** The map of an allocated cache. *)
Definition mapOf (widget : bilibiliWidget) : gmap string cacheEntry :=
  match cachedVideos widget with
  | Some m => m
  | None => ∅
  end.

(** [threeUPs] after [Render] when every UP is refused. *)
Definition afterRender : bilibiliWidget :=
  match Render false 100 refuseAll threeUPs with
  | Done widget => widget
  | Panic => threeUPs
  end.

Definition twoVideos : videoList :=
  [toVideo "1" (item "a1" 10); toVideo "2" (item "b1" 15)].

(** A UP whose UID ends in the UID of UP 1 after a slash, and one of its
    videos. *)
Definition overlapUP : bilibiliUPConfig := mkUP "x/1" 0.

Definition overlapVideo : video := toVideo "x/1" (item "c1" 5).

(** A client whose last request was issued at time 0. *)
Definition earlyClient : delayed.delayedHTTPClient :=
  delayed.mkClient (500 * time.Millisecond) 0.

Definition twoPasses : list (time.Time * network) :=
  [(100, twoOfThree); (200, refuseAll)].


(** ** Callers of [Do] that run at the same time *)

(** The worker pool runs [Do] from two workers on the one client
    [bilibiliHTTPClient], and [Do] takes no lock.  Its body is split
    here at the places where a caller reads or writes the shared client
    or sleeps, so that the steps of several callers can be interleaved. *)
Module racing.
(** Where a caller stands in [Do]: before [time.Since(c.lastReq)], in
    [time.Sleep] until [wake], before [c.lastReq = time.Now()], or in
    [c.client.Do(req)] with its request issued at [t]. *)
Inductive position : Type :=
| AtSince
| Sleeping (wake : time.Time)
| AtNow
| Issued (t : time.Time).

Record state : Type := mkState {
  client : delayed.delayedHTTPClient;
  clock : time.Time;
  callers : list position
}.

(** The next step of one caller.  A caller in [time.Sleep] resumes no
    earlier than [wake]: the clock moves on to that time if it is not
    there yet. *)
Definition step (c : delayed.delayedHTTPClient) (now : time.Time)
  (pos : position) : delayed.delayedHTTPClient * time.Time * position :=
  match pos with
  | AtSince =>
      let elapsed := time.Sub now (delayed.lastReq c) in
      if elapsed <? delayed.delay c then
        let sleepTime := wrap64 (delayed.delay c - elapsed) in
        if sleepTime <=? 0 then (c, now, AtNow)
        else (c, now, Sleeping (now + sleepTime))
      else (c, now, AtNow)
  | Sleeping wake => (c, Z.max now wake, AtNow)
  | AtNow => (delayed.mkClient (delayed.delay c) now, now, Issued now)
  | Issued t => (c, now, Issued t)
  end.

(** The scheduler lets caller [i] take its next step. *)
Definition stepCaller (s : state) (i : nat) : state :=
  match callers s !! i with
  | None => s
  | Some pos =>
      let '(c, now, pos') := step (client s) (clock s) pos in
      mkState c now (<[i := pos']> (callers s))
  end.

Definition run (schedule : list nat) (s : state) : state :=
  foldl stepCaller s schedule.

(** The time at which each caller issued its request, if it has. *)
Definition issueTimes (s : state) : list (option time.Time) :=
  map (fun pos => match pos with Issued t => Some t | _ => None end)
      (callers s).

(** One caller taking the three steps in a row. *)
Definition alone (c : delayed.delayedHTTPClient) (now : time.Time)
  : delayed.delayedHTTPClient * time.Time * position :=
  let '(c1, now1, pos1) := step c now AtSince in
  let '(c2, now2, pos2) := step c1 now1 pos1 in
  step c2 now2 pos2.

(** Two workers enter [Do] at time 0 on a client whose last request
    was issued at time 0, and on the client as the package creates it at
    time 100. *)
Definition twoWorkers : state := mkState earlyClient 0 [AtSince; AtSince].

Definition twoWorkersAtStart : state :=
  mkState delayed.bilibiliHTTPClient 100 [AtSince; AtSince].

(** Both workers read [lastReq] before either of them writes it. *)
Definition interleaved : list nat := [0; 1; 0; 1; 0; 1]%nat.

(** The second worker enters [Do] when the first has issued its request. *)
Definition oneAfterTheOther : list nat := [0; 0; 0; 1; 1; 1]%nat.
End racing.

(** * Properties *)

(** ** Initialisation *)

(** C9.  After [initialize] the item limit is positive: a configured
    limit of zero or less is replaced by 25 and a positive one is kept;
    [CollapseAfterRows] becomes 4 and [CollapseAfter] becomes 7 whenever
    the configured value is 0 or below -1 and are kept otherwise; the
    per-source cache is an allocated, empty map; the returned error is
    nil. *)
Theorem initialize_defaults (widget : bilibiliWidget) :
  let widget' := fst (initialize widget) in
  0 < Limit widget'
  /\ Limit widget' = (if Limit widget <=? 0 then 25 else Limit widget)
  /\ (CollapseAfterRows widget = 0 \/ CollapseAfterRows widget < -1 ->
      CollapseAfterRows widget' = 4)
  /\ (~ (CollapseAfterRows widget = 0 \/ CollapseAfterRows widget < -1) ->
      CollapseAfterRows widget' = CollapseAfterRows widget)
  /\ (CollapseAfter widget = 0 \/ CollapseAfter widget < -1 ->
      CollapseAfter widget' = 7)
  /\ (~ (CollapseAfter widget = 0 \/ CollapseAfter widget < -1) ->
      CollapseAfter widget' = CollapseAfter widget)
  /\ cachedVideos widget' = Some ∅
  /\ snd (initialize widget) = None.
Proof.
  cbn [initialize fst snd Limit CollapseAfterRows CollapseAfter cachedVideos].
  repeat split.
  - destruct (Z.leb_spec (Limit widget) 0); lia.
  - intros H.
    destruct (Z.eqb_spec (CollapseAfterRows widget) 0) as [E|E]; [reflexivity|].
    destruct (Z.ltb_spec (CollapseAfterRows widget) (-1)); [reflexivity|lia].
  - intros H.
    destruct (Z.eqb_spec (CollapseAfterRows widget) 0) as [E|E]; [tauto|].
    destruct (Z.ltb_spec (CollapseAfterRows widget) (-1)); [tauto|reflexivity].
  - intros H.
    destruct (Z.eqb_spec (CollapseAfter widget) 0) as [E|E]; [reflexivity|].
    destruct (Z.ltb_spec (CollapseAfter widget) (-1)); [reflexivity|lia].
  - intros H.
    destruct (Z.eqb_spec (CollapseAfter widget) 0) as [E|E]; [tauto|].
    destruct (Z.ltb_spec (CollapseAfter widget) (-1)); [tauto|reflexivity].
Qed.

(** ** Cache duration *)

Lemma cacheDuration_order (isDevelopment : bool)
  (widget : bilibiliWidget) (up : bilibiliUPConfig) :
  cacheDuration isDevelopment widget up =
    if isDevelopment then 0
    else if 0 <? Cache up then Cache up
    else if 0 <? UpdateInterval widget then UpdateInterval widget
    else 7200 * 1000000000.
Proof.
  unfold cacheDuration.
  destruct isDevelopment; cbn [negb]; [reflexivity|].
  destruct (0 <? Cache up); [reflexivity|].
  destruct (0 <? UpdateInterval widget); [reflexivity|].
  unfold time.Hour. lia.
Qed.

(** ** The delayed HTTP client *)

Module delayed_facts.
Import delayed.

Lemma Do_spacing {R : Type}
  (transport : http.Request -> option R * option error)
  (c : delayedHTTPClient) (clock : time.Time) (p : pace) (req : http.Request) :
  pace_ok p ->
  lastReq c <= clock ->
  delay c <= time.maxDuration ->
  exists t,
    Do transport c clock p req
    = (mkClient (delay c) t, t, passOn (transport req))
    /\ lastReq c + delay c <= t
    /\ clock <= t.
Proof.
  intros (Ha & Ho & Hl) Hclk Hmax.
  unfold Do. eexists. split; [reflexivity|].
  set (elapsed := time.Sub (clock + arrive p) (lastReq c)).
  assert (Hel : elapsed = clock + arrive p - lastReq c
                \/ (elapsed = time.maxDuration
                    /\ time.maxDuration <= clock + arrive p - lastReq c)).
  { unfold elapsed, time.Sub, time.maxDuration, time.minDuration.
    change (2 ^ 63) with 9223372036854775808. lia. }
  clearbody elapsed.
  unfold time.maxDuration in *.
  change (2 ^ 63) with 9223372036854775808 in *.
  destruct (Z.ltb_spec elapsed (delay c)) as [Hlt|Hge]; [|lia].
  destruct Hel as [Hel|[Hel _]]; [subst elapsed|lia].
  unfold Sleep, wrap64.
  change (2 ^ 63) with 9223372036854775808.
  change (2 ^ 64) with 18446744073709551616.
  rewrite Z.mod_small by lia.
  destruct (Z.leb_spec
    (delay c - (clock + arrive p - lastReq c) + 9223372036854775808
     - 9223372036854775808) 0); lia.
Qed.

Lemma DoAll_spacing {R : Type}
  (transport : http.Request -> option R * option error)
  (calls : list (pace * http.Request)) :
  forall (c : delayedHTTPClient) (clock : time.Time),
  Forall (fun call => pace_ok (fst call)) calls ->
  lastReq c <= clock ->
  delay c <= time.maxDuration ->
  forall (i : nat) (t t' : time.Time),
    (lastReq c :: DoAll transport c clock calls) !! i = Some t ->
    (lastReq c :: DoAll transport c clock calls) !! S i = Some t' ->
    delay c <= t' - t.
Proof.
  induction calls as [|[p req] rest IH]; intros c clock Hok Hclk Hmax i t t' Hi Hi'.
  - destruct i; discriminate.
  - apply Forall_cons in Hok as [Hp Hrest].
    destruct (Do_spacing transport c clock p req Hp Hclk Hmax)
      as (t1 & HDo & Hgap & Hmono).
    cbn [DoAll] in Hi, Hi'. rewrite HDo in Hi, Hi'.
    destruct i as [|i].
    + cbn in Hi, Hi'. inversion Hi; inversion Hi'; subst. lia.
    + change ((lastReq (mkClient (delay c) t1)
               :: DoAll transport (mkClient (delay c) t1) t1 rest) !! i = Some t) in Hi.
      change ((lastReq (mkClient (delay c) t1)
               :: DoAll transport (mkClient (delay c) t1) t1 rest) !! S i = Some t') in Hi'.
      apply (IH (mkClient (delay c) t1) t1 Hrest) with (i := i); cbn; auto; lia.
Qed.
End delayed_facts.

(** Calls in sequence.  When one caller issues calls of [Do] one after the
    other, each
    call records the time at which it issues its request as the client's
    last-request time, after any wait, and the times at which consecutive
    requests are issued (the first one counted from the last-request time
    the client started with) are at least the configured delay apart. *)
Theorem delayed_Do_min_spacing {R : Type}
  (transport : http.Request -> option R * option error)
  (c : delayed.delayedHTTPClient) (clock : time.Time)
  (calls : list (delayed.pace * http.Request)) :
  Forall (fun call => delayed.pace_ok (fst call)) calls ->
  delayed.lastReq c <= clock ->
  delayed.delay c <= time.maxDuration ->
  (forall p req, delayed.pace_ok p ->
     exists t,
       delayed.Do transport c clock p req
         = (delayed.mkClient (delayed.delay c) t, t,
            delayed.passOn (transport req))
       /\ delayed.lastReq c + delayed.delay c <= t)
  /\ (forall (i : nat) (t t' : time.Time),
       (delayed.lastReq c :: delayed.DoAll transport c clock calls) !! i = Some t ->
       (delayed.lastReq c :: delayed.DoAll transport c clock calls) !! S i = Some t' ->
       delayed.delay c <= t' - t).
Proof.
  intros Hok Hclk Hmax. split.
  - intros p req Hp.
    destruct (delayed_facts.Do_spacing transport c clock p req Hp Hclk Hmax)
      as (t & HDo & Hgap & _).
    exists t. auto.
  - apply delayed_facts.DoAll_spacing; assumption.
Qed.

(** ** Which sources are stale *)

Lemma forceAll_spec (ups : list bilibiliUPConfig) :
  forall needUpdate, forceAll ups needUpdate = needUpdate ++ map UID ups.
Proof.
  induction ups as [|up rest IH]; intros needUpdate; cbn.
  - now rewrite app_nil_r.
  - rewrite IH, <- app_assoc. reflexivity.
Qed.

Lemma checkCache_spec (now : time.Time) (cache : option (gmap string cacheEntry))
  (ups : list bilibiliUPConfig) :
  forall needUpdate allVideos,
    checkCache now cache ups needUpdate allVideos =
      (needUpdate
         ++ map UID (List.filter (fun up => expired now cache (UID up)) ups),
       allVideos
         ++ concat (map (fun up => cachedOf cache (UID up))
              (List.filter (fun up => negb (expired now cache (UID up))) ups))).
Proof.
  induction ups as [|up rest IH]; intros needUpdate allVideos; cbn.
  - now rewrite !app_nil_r.
  - unfold expired, cachedOf.
    destruct (mapGet cache (UID up)) as [entry|] eqn:Hget.
    + destruct (time.After now (expireAt entry)); cbn; rewrite IH.
      * rewrite <- app_assoc. reflexivity.
      * rewrite Hget, <- app_assoc. reflexivity.
    + cbn. rewrite IH, <- app_assoc. reflexivity.
Qed.

Lemma staleSources_spec (isDevelopment : bool) (now : time.Time)
  (widget : bilibiliWidget) :
  staleSources isDevelopment now widget =
    if isDevelopment then (map UID (UPs widget), [])
    else
      (map UID (List.filter
                  (fun up => expired now (cachedVideos widget) (UID up))
                  (UPs widget)),
       concat (map (fun up => cachedOf (cachedVideos widget) (UID up))
                 (List.filter
                    (fun up => negb (expired now (cachedVideos widget) (UID up)))
                    (UPs widget)))).
Proof.
  unfold staleSources. destruct isDevelopment.
  - now rewrite forceAll_spec.
  - now rewrite checkCache_spec.
Qed.

Lemma needUpdate_In (isDevelopment : bool) (now : time.Time)
  (widget : bilibiliWidget) (uid : string) :
  In uid (fst (staleSources isDevelopment now widget)) <->
  In uid (map UID (UPs widget))
  /\ (isDevelopment = true \/ expired now (cachedVideos widget) uid = true).
Proof.
  rewrite staleSources_spec. destruct isDevelopment; cbn [fst].
  - tauto.
  - rewrite !in_map_iff. split.
    + intros (up & <- & Hin). apply filter_In in Hin as [Hin Hexp].
      split; [exists up; auto | auto].
    + intros [(up & <- & Hin) [Hdev|Hexp]]; [discriminate|].
      exists up. split; [reflexivity|]. apply filter_In. auto.
Qed.

(** C2, as the code has it.  A configured source is in [needUpdate]
    exactly when development mode is on, or the cache has no entry for
    it, or [now] is strictly after the entry's expiry; and a source whose
    cache duration is zero, which only development mode produces, is in
    [needUpdate] at every later check, whatever the cache holds then. *)
Theorem stale_iff_forced_missing_or_after_expiry (isDevelopment : bool)
  (now : time.Time) (widget : bilibiliWidget) (up : bilibiliUPConfig) :
  In up (UPs widget) ->
  (In (UID up) (fst (staleSources isDevelopment now widget)) <->
     isDevelopment = true
     \/ mapGet (cachedVideos widget) (UID up) = None
     \/ exists entry, mapGet (cachedVideos widget) (UID up) = Some entry
                      /\ expireAt entry < now)
  /\ (cacheDuration isDevelopment widget up = 0 ->
      forall (now' : time.Time) (widget' : bilibiliWidget),
        In up (UPs widget') ->
        In (UID up) (fst (staleSources isDevelopment now' widget'))).
Proof.
  intros Hin. split.
  - rewrite needUpdate_In. unfold expired, time.After.
    split.
    + intros [_ [Hdev|Hexp]]; [auto|]. right.
      destruct (mapGet (cachedVideos widget) (UID up)) as [entry|]; [|auto].
      right. exists entry. split; [reflexivity|]. now apply Z.ltb_lt.
    + intros H. split; [now apply in_map|].
      destruct H as [Hdev|[Hnone|(entry & Hsome & Hlt)]]; [auto| |].
      * right. now rewrite Hnone.
      * right. rewrite Hsome. now apply Z.ltb_lt.
  - intros Hzero now' widget' Hin'.
    apply needUpdate_In. split; [now apply in_map|]. left.
    rewrite cacheDuration_order in Hzero.
    destruct isDevelopment; [reflexivity|].
    destruct (Z.ltb_spec 0 (Cache up)); [lia|].
    destruct (Z.ltb_spec 0 (UpdateInterval widget)); lia.
Qed.

(** ** The fetcher *)

Lemma buildRequests_app (uids : list string) :
  forall requests,
    buildRequests uids requests = requests ++ buildRequests uids [].
Proof.
  induction uids as [|uid rest IH]; intros requests; cbn.
  - now rewrite app_nil_r.
  - destruct (http.NewRequest "GET" (apiUrl uid)) as [request|].
    + rewrite IH, (IH [addHeaders uid request]), <- app_assoc. reflexivity.
    + apply IH.
Qed.

Lemma buildRequests_length (uids : list string) :
  (length (buildRequests uids []) <= length uids)%nat.
Proof.
  induction uids as [|uid rest IH]; cbn; [lia|].
  destruct (http.NewRequest "GET" (apiUrl uid)) as [request|].
  - rewrite buildRequests_app, length_app. cbn. lia.
  - lia.
Qed.

Lemma buildRequests_buildable (uids : list string) :
  Forall (fun uid => buildable uid = true) uids ->
  buildRequests uids [] = map requestOf uids.
Proof.
  induction 1 as [|uid rest Huid _ IH]; cbn; [reflexivity|].
  unfold http.NewRequest. unfold buildable in Huid. rewrite Huid.
  rewrite buildRequests_app, IH. reflexivity.
Qed.

Lemma collectVideos_spec (outs : list (bilibiliVideoResponse * option error)) :
  forall (uids : list string) (errs : list (option error)) (i : nat)
         (videos : videoList) (failed : nat),
    (forall j o, outs !! j = Some o -> errs !! (i + j)%nat = Some (snd o)) ->
    (i + length outs <= length uids)%nat ->
    collectVideos uids errs i (map fst outs) videos failed =
      Done (videos ++ concat (zip_with itemsOf (drop i uids) outs),
            (failed + length (List.filter sourceFailed outs))%nat).
Proof.
  induction outs as [|o outs IH]; intros uids errs i videos failed Herrs Hlen.
  - cbn. rewrite zip_with_nil_r. cbn. rewrite app_nil_r. f_equal. f_equal. lia.
  - cbn [map collectVideos].
    rewrite <- (Nat.add_0_r i) at 1. rewrite (Herrs 0%nat o eq_refl).
    cbn [length] in Hlen.
    destruct (lookup_lt_is_Some_2 uids i) as [uid Huid]; [lia|].
    rewrite Huid, (drop_S _ _ _ Huid).
    assert (Hrest : forall j o', outs !! j = Some o' ->
                                 errs !! (S i + j)%nat = Some (snd o')).
    { intros j o' Hj. replace (S i + j)%nat with (i + S j)%nat by lia.
      now apply Herrs. }
    cbn [zip_with concat List.filter length].
    unfold itemsOf at 1. unfold sourceFailed at 1 2.
    destruct (snd o) as [e|].
    + rewrite (IH uids errs (S i)) by (auto; lia).
      cbn. f_equal. f_equal. lia.
    + destruct (Code (fst o) =? 0); cbn [negb].
      * rewrite (IH uids errs (S i)) by (auto; lia).
        rewrite app_assoc. reflexivity.
      * rewrite (IH uids errs (S i)) by (auto; lia).
        cbn. f_equal. f_equal. lia.
Qed.

Lemma lookup_map_snd {A B : Type} (l : list (A * B)) (j : nat) (o : A * B) :
  l !! j = Some o -> map snd l !! j = Some (snd o).
Proof.
  revert j. induction l as [|x l IH]; intros [|j] H; try discriminate.
  - now inversion H.
  - cbn in *. now apply IH.
Qed.

(** The fetcher never panics; its result is determined by the outcomes of
    the requests that could be built, each attributed to the UID at the
    same index. *)
Lemma fetch_spec (net : network) (uids : list string) :
  fetchBilibiliUserVideos net uids =
    match poolErr net with
    | Some e => Done ([], Some (ErrPoolNoContent e))
    | None =>
        let outs := imap (answer net) (buildRequests uids []) in
        let videos := concat (zip_with itemsOf uids outs) in
        let failed := length (List.filter sourceFailed outs) in
        if (length videos =? 0)%nat then Done ([], Some errNoContent)
        else if (0 <? failed)%nat
             then Done (sortByNewest videos, Some (ErrMissingVideos failed))
             else Done (sortByNewest videos, None)
    end.
Proof.
  unfold fetchBilibiliUserVideos, workerPoolDo.
  destruct (poolErr net) as [e|]; [reflexivity|].
  cbv zeta.
  rewrite (collectVideos_spec _ uids).
  - reflexivity.
  - intros j o Hj. now apply lookup_map_snd.
  - rewrite length_imap. pose proof (buildRequests_length uids). lia.
Qed.

(** ** Sorting and the limit *)

#[local] Instance newerEq_trans : Transitive newerEq.
Proof. intros a b c. unfold newerEq. lia. Qed.

Lemma insertByNewest_perm (x : video) (sorted : videoList) :
  Permutation (insertByNewest x sorted) (x :: sorted).
Proof.
  induction sorted as [|y rest IH]; cbn [insertByNewest]; [reflexivity|].
  destruct (decide (newerEq x y)); [reflexivity|].
  rewrite IH. apply perm_swap.
Qed.

Lemma insertByNewest_sorted (x : video) (sorted : videoList) :
  StronglySorted newerEq sorted ->
  StronglySorted newerEq (insertByNewest x sorted).
Proof.
  induction 1 as [|y rest Hrest IH Hy]; cbn [insertByNewest].
  - repeat constructor.
  - destruct (decide (newerEq x y)) as [Hxy|Hxy].
    + constructor; [now constructor|].
      constructor; [exact Hxy|].
      eapply List.Forall_impl; [|exact Hy].
      intros z Hz. now transitivity y.
    + constructor; [exact IH|].
      apply List.Forall_forall. intros z Hz.
      apply (Permutation_in _ (insertByNewest_perm x rest)) in Hz.
      destruct Hz as [<-|Hz].
      * unfold newerEq in *. lia.
      * revert z Hz. now apply List.Forall_forall.
Qed.

Lemma sortByNewest_sorted (v : videoList) :
  StronglySorted newerEq (sortByNewest v).
Proof.
  induction v as [|x rest IH]; cbn [sortByNewest]; [constructor|].
  now apply insertByNewest_sorted.
Qed.

Lemma sortByNewest_perm (v : videoList) : Permutation (sortByNewest v) v.
Proof.
  induction v as [|x rest IH]; cbn [sortByNewest]; [reflexivity|].
  rewrite insertByNewest_perm. now constructor.
Qed.

(** Ties keep their input order: a list that is newest first already is
    left as it is. *)
Lemma sortByNewest_stable (v : videoList) :
  StronglySorted newerEq v -> sortByNewest v = v.
Proof.
  induction 1 as [|x rest Hrest IH Hx]; [reflexivity|].
  cbn [sortByNewest]. rewrite IH.
  destruct Hx as [|y rest' Hxy _]; [reflexivity|].
  cbn [insertByNewest]. now rewrite decide_True.
Qed.

Lemma sortByNewest_length (v : videoList) :
  length (sortByNewest v) = length v.
Proof. apply Permutation_length, sortByNewest_perm. Qed.

Lemma StronglySorted_take {A : Type} (R : relation A) (l : list A) :
  StronglySorted R l -> forall n, StronglySorted R (take n l).
Proof.
  induction 1 as [|x l Hl IH Hx]; intros [|n]; cbn; try constructor.
  - apply IH.
  - revert Hx. rewrite !Forall_forall. intros Hx y Hy.
    apply Hx. eapply subseteq_take, Hy.
Qed.

Lemma sortAndLimit_spec (limit : Z) (allVideos : videoList) :
  0 <= limit ->
  sortAndLimit limit allVideos
    = Done (take (Z.to_nat limit) (sortByNewest allVideos)).
Proof.
  intros Hlimit. unfold sortAndLimit.
  destruct (Z.ltb_spec limit (Z.of_nat (length (sortByNewest allVideos)))).
  - destruct (Z.ltb_spec limit 0); [lia|reflexivity].
  - rewrite take_ge by lia. reflexivity.
Qed.

Lemma sortAndLimit_negative (limit : Z) (allVideos : videoList) :
  limit < 0 -> sortAndLimit limit allVideos = Panic.
Proof.
  intros Hlimit. unfold sortAndLimit.
  destruct (Z.ltb_spec limit (Z.of_nat (length (sortByNewest allVideos)))); [|lia].
  destruct (Z.ltb_spec limit 0); [reflexivity|lia].
Qed.

(** ** The cache update loop *)

Lemma contains_In (slice : list string) (str : string) :
  contains slice str = true <-> In str slice.
Proof.
  induction slice as [|s rest IH]; cbn; [split; [discriminate|tauto]|].
  destruct (String.eqb_spec s str) as [->|Hne].
  - tauto.
  - rewrite IH. split; [auto|]. intros [H|H]; [contradiction|assumption].
Qed.

(** The UPs whose cache entry the loop rewrites. *)
Lemma refreshCache_spec (isDevelopment : bool) (now : time.Time)
  (widget : bilibiliWidget) (needUpdate : list string) (newVideos : videoList)
  (ups : list bilibiliUPConfig) :
  forall (m : gmap string cacheEntry) (allVideos : videoList),
  exists m',
    refreshCache isDevelopment now widget needUpdate newVideos ups (Some m)
      allVideos
    = Done (Some m',
            allVideos
              ++ concat (map (upVideosOf newVideos)
                   (List.filter (fun up => contains needUpdate (UID up)) ups)))
    /\ forall uid, ~ In uid needUpdate -> m' !! uid = m !! uid.
Proof.
  induction ups as [|up rest IH]; intros m allVideos; cbn [refreshCache].
  - exists m. cbn. rewrite app_nil_r. auto.
  - cbn [List.filter].
    destruct (contains needUpdate (UID up)) eqn:Hc; cbn [negb].
    + cbn [mapPut obind].
      destruct (IH (<[UID up :=
                      {| videos := upVideosOf newVideos up;
                         expireAt := time.Add now
                                       (cacheDuration isDevelopment widget up) |}]> m)
                   (allVideos ++ upVideosOf newVideos up)) as (m' & Heq & Hframe).
      exists m'. split.
      * rewrite Heq. cbn [map concat]. rewrite <- app_assoc. reflexivity.
      * intros uid Hnot. rewrite (Hframe uid Hnot).
        apply lookup_insert_ne. intros Heq'. subst uid.
        apply Hnot. now apply contains_In.
    + apply IH.
Qed.

(** With a nil map the loop panics as soon as it has an entry to write. *)
Lemma refreshCache_nil (isDevelopment : bool) (now : time.Time)
  (widget : bilibiliWidget) (needUpdate : list string) (newVideos : videoList)
  (ups : list bilibiliUPConfig) :
  forall allVideos,
    refreshCache isDevelopment now widget needUpdate newVideos ups None allVideos
    = if forallb (fun up => negb (contains needUpdate (UID up))) ups
      then Done (None, allVideos) else Panic.
Proof.
  induction ups as [|up rest IH]; intros allVideos; cbn; [reflexivity|].
  destruct (contains needUpdate (UID up)); cbn; [reflexivity|apply IH].
Qed.

(** ** One pass of [update] *)

Lemma update_Failed (isDevelopment : bool) (now : time.Time) (net : network)
  (widget : bilibiliWidget) (err : error) :
  aggregate isDevelopment now net widget = Done (Failed err) ->
  update isDevelopment now net widget
    = Done (withError widget (Some (ErrFetchFailed err))).
Proof. intros H. unfold update. rewrite H. reflexivity. Qed.

Lemma update_Merged (isDevelopment : bool) (now : time.Time) (net : network)
  (widget : bilibiliWidget) (cache : option (gmap string cacheEntry))
  (allVideos : videoList) :
  aggregate isDevelopment now net widget = Done (Merged cache allVideos) ->
  0 <= Limit widget ->
  update isDevelopment now net widget
    = Done (withVideos (withCache widget cache)
              (take (Z.to_nat (Limit widget)) (sortByNewest allVideos))).
Proof.
  intros H Hlimit. unfold update. rewrite H. cbn [obind].
  rewrite sortAndLimit_spec by assumption. reflexivity.
Qed.

(** The fetcher's verdict on the stale sources decides how a pass ends. *)
Lemma aggregate_fetch_error (isDevelopment : bool) (now : time.Time)
  (net : network) (widget : bilibiliWidget) (vs : videoList) (err : error) :
  fst (staleSources isDevelopment now widget) <> [] ->
  fetchBilibiliUserVideos net (fst (staleSources isDevelopment now widget))
    = Done (vs, Some err) ->
  aggregate isDevelopment now net widget = Done (Failed err).
Proof.
  unfold aggregate.
  destruct (staleSources isDevelopment now widget) as [needUpdate cached].
  cbn [fst]. intros Hne Hfetch.
  destruct needUpdate as [|uid rest]; [congruence|].
  cbn [length Nat.ltb Nat.leb]. rewrite Hfetch. reflexivity.
Qed.

(** C10.  A pass of [update] that reaches the merge leaves the [Error]
    field as it found it, a pass that returns early sets it to the wrapped
    fetch error, and no pass resets it to nil: an error set by a failed
    pass is still there after any later successful pass. *)
Theorem update_never_clears_Error (isDevelopment : bool) (now : time.Time)
  (net : network) (widget widget' : bilibiliWidget) :
  update isDevelopment now net widget = Done widget' ->
  (forall cache allVideos,
      aggregate isDevelopment now net widget = Done (Merged cache allVideos) ->
      Error widget' = Error widget)
  /\ (forall err,
      aggregate isDevelopment now net widget = Done (Failed err) ->
      Error widget' = Some (ErrFetchFailed err))
  /\ (Error widget <> None -> Error widget' <> None).
Proof.
  unfold update.
  destruct (aggregate isDevelopment now net widget) as [[err|cache allVideos]|];
    cbn [obind]; [| |discriminate].
  - intros H. inversion H; subst. cbn. repeat split; congruence.
  - destruct (sortAndLimit (Limit widget) allVideos) as [vs|];
      cbn [obind]; [|discriminate].
    intros H. inversion H; subst. cbn. repeat split; congruence.
Qed.

(** C1, what the code does.  Three sources are stale, two answer with
    three videos each and the third with a non-zero code: the fetcher
    returns the six videos with the partial-content error for one failed
    source, and [update] returns early: it records the error and leaves
    the cache and the video list as they were, both empty. *)
Theorem partial_failure_ends_the_pass :
  fst (staleSources false 100 threeUPs) = ["1"; "2"; "3"]
  /\ failedSources twoOfThree ["1"; "2"; "3"] = 1%nat
  /\ (exists vs, fetchBilibiliUserVideos twoOfThree ["1"; "2"; "3"]
                   = Done (vs, Some (ErrMissingVideos 1)) /\ length vs = 6%nat)
  /\ update false 100 twoOfThree threeUPs
     = Done (withError threeUPs (Some (ErrFetchFailed (ErrMissingVideos 1))))
  /\ cachedVideos (withError threeUPs (Some (ErrFetchFailed (ErrMissingVideos 1))))
     = Some ∅
  /\ Videos (withError threeUPs (Some (ErrFetchFailed (ErrMissingVideos 1)))) = [].
Proof.
  split; [vm_compute; reflexivity|].
  split; [vm_compute; reflexivity|].
  split; [eexists; split; vm_compute; reflexivity|].
  split; [vm_compute; reflexivity|].
  split; reflexivity.
Qed.

(** C3, what the code does.  The request for a UID that ends in a tab
    cannot be created and is skipped, so two UIDs yield one request and one
    outcome, and the answer to the request of UP 2 is attributed to the
    UID at index 0: the video it carries gets the author URL of the other
    UID. *)
Theorem skipped_request_shifts_attribution :
  buildRequests [tabbedUID; "2"] [] = [requestOf "2"]
  /\ fst (answer onlyTwo 0%nat (requestOf "2")) = okResponse [item "b1" 15]
  /\ fetchBilibiliUserVideos onlyTwo [tabbedUID; "2"]
     = Done ([toVideo tabbedUID (item "b1" 15)], None)
  /\ AuthorUrl (toVideo tabbedUID (item "b1" 15)) <> authorUrl "2".
Proof.
  split; [vm_compute; reflexivity|].
  split; [vm_compute; reflexivity|].
  split; [vm_compute; reflexivity|].
  vm_compute. discriminate.
Qed.

(** ** The fetcher's error, by what the sources did *)

Lemma outcomes_length (net : network) (uids : list string) :
  length (outcomes net uids) = length uids.
Proof. unfold outcomes. now rewrite length_imap, List.length_map. Qed.

Lemma fetch_buildable (net : network) (uids : list string) :
  Forall (fun uid => buildable uid = true) uids ->
  fetchBilibiliUserVideos net uids =
    match poolErr net with
    | Some e => Done ([], Some (ErrPoolNoContent e))
    | None =>
        if (length (obtained net uids) =? 0)%nat then Done ([], Some errNoContent)
        else if (0 <? failedSources net uids)%nat
             then Done (sortByNewest (obtained net uids),
                        Some (ErrMissingVideos (failedSources net uids)))
             else Done (sortByNewest (obtained net uids), None)
    end.
Proof.
  intros Hb. rewrite fetch_spec, (buildRequests_buildable uids Hb).
  reflexivity.
Qed.

Lemma filter_length_all {A : Type} (f : A -> bool) (l : list A) :
  length (List.filter f l) = length l -> Forall (fun x => f x = true) l.
Proof.
  induction l as [|x l IH]; cbn; [constructor|].
  pose proof (List.filter_length_le f l) as Hle.
  destruct (f x) eqn:Hfx; cbn; intros Hlen.
  - constructor; [assumption|]. apply IH. lia.
  - lia.
Qed.

Lemma no_items_when_all_failed (uids : list string) :
  forall outs,
    Forall (fun o => sourceFailed o = true) outs ->
    concat (zip_with itemsOf uids outs) = [].
Proof.
  induction uids as [|uid rest IH]; intros outs Hall; [reflexivity|].
  destruct Hall as [|o outs Ho Hall]; [reflexivity|].
  cbn. unfold itemsOf at 1. rewrite Ho. cbn. now apply IH.
Qed.

Lemma all_failed_obtained (net : network) (uids : list string) :
  failedSources net uids = length uids -> obtained net uids = [].
Proof.
  unfold failedSources, obtained. intros Hall.
  apply no_items_when_all_failed, filter_length_all.
  now rewrite outcomes_length.
Qed.

Lemma length_zero_iff {A : Type} (l : list A) :
  (length l =? 0)%nat = true <-> l = [].
Proof. destruct l; cbn; split; congruence. Qed.

(** C4, as the code has it.  When every request can be created, the
    fetcher returns: the no-content error exactly when the pool failed or
    no video was obtained from any source; the partial-content error,
    carrying the number of failed sources, exactly when some source failed
    and at least one video was obtained; and a nil error exactly when no
    source failed and at least one video was obtained.  And when all the
    stale sources of a pass fail, [update] returns early with the wrapped
    no-content error and leaves the cache and the video list as they were. *)
Theorem fetch_error_by_failures_and_items (net : network) (uids : list string) :
  Forall (fun uid => buildable uid = true) uids ->
  (exists vs err,
      fetchBilibiliUserVideos net uids = Done (vs, err)
      /\ (isNoContent err = true <->
            poolErr net <> None \/ obtained net uids = [])
      /\ (isPartialContent err = true <->
            poolErr net = None /\ (0 < failedSources net uids)%nat
            /\ obtained net uids <> [])
      /\ (isPartialContent err = true ->
            err = Some (ErrMissingVideos (failedSources net uids)))
      /\ (err = None <->
            poolErr net = None /\ failedSources net uids = 0%nat
            /\ obtained net uids <> [])
      /\ (isNoContent err = false -> Permutation vs (obtained net uids)))
  /\ (forall (isDevelopment : bool) (now : time.Time) (widget : bilibiliWidget),
        fst (staleSources isDevelopment now widget) = uids ->
        uids <> [] ->
        failedSources net uids = length uids ->
        exists widget' err,
          update isDevelopment now net widget = Done widget'
          /\ cachedVideos widget' = cachedVideos widget
          /\ Videos widget' = Videos widget
          /\ Error widget' = Some (ErrFetchFailed err)
          /\ isNoContent (Some err) = true).
Proof.
  intros Hb. pose proof (fetch_buildable net uids Hb) as Hfetch.
  assert (Hlen0 : (length (obtained net uids) =? 0)%nat = true
                  <-> obtained net uids = []) by apply length_zero_iff.
  split.
  - destruct (poolErr net) as [e|] eqn:Hpool;
      [|destruct (length (obtained net uids) =? 0)%nat eqn:Hlen;
        [|destruct (Nat.ltb_spec 0 (failedSources net uids)) as [Hk|Hk]]];
      do 2 eexists; (split; [exact Hfetch|]); cbn;
      repeat split;
      first [ congruence | tauto | (intros; lia)
            | (intros [?|?]; intuition congruence)
            | (intros (? & ? & ?); first [lia | intuition congruence])
            | (intros; apply sortByNewest_perm)
            | (left; congruence)
            | (intros; right; tauto)
            | (intros; intuition congruence) ].
  - intros isDevelopment now widget Hstale Hne Hall.
    pose proof (all_failed_obtained net uids Hall) as Hnil.
    rewrite Hnil in Hfetch. cbn [length Nat.eqb] in Hfetch.
    destruct (poolErr net) as [e|].
    + exists (withError widget (Some (ErrFetchFailed (ErrPoolNoContent e)))),
        (ErrPoolNoContent e).
      split; [|cbn; auto].
      apply update_Failed, (aggregate_fetch_error _ _ _ _ []); rewrite Hstale; auto.
    + exists (withError widget (Some (ErrFetchFailed errNoContent))), errNoContent.
      split; [|cbn; auto].
      apply update_Failed, (aggregate_fetch_error _ _ _ _ []); rewrite Hstale; auto.
Qed.

(** C4 as stated fails: of two sources one is refused and the other
    answers with an empty list, so some but not all sources failed, and
    the fetcher returns the no-content error, not the partial-content
    error. *)
Lemma some_failed_but_no_content :
  Forall (fun uid => buildable uid = true) ["1"; "2"]
  /\ (0 < failedSources refusedAndEmpty ["1"; "2"] < length ["1"; "2"])%nat
  /\ fetchBilibiliUserVideos refusedAndEmpty ["1"; "2"]
     = Done ([], Some errNoContent)
  /\ isPartialContent (Some errNoContent) = false.
Proof.
  split; [repeat constructor|].
  split; [vm_compute; lia|].
  split; vm_compute; reflexivity.
Qed.

(** ** Matching a video to its UP by the suffix of the author URL *)

Lemma append_cons (c : ascii) (p t : string) :
  String c p +:+ t = String c (p +:+ t).
Proof. reflexivity. Qed.

Lemma append_nil (t : string) : EmptyString +:+ t = t.
Proof. reflexivity. Qed.

Lemma string_length_app (p t : string) :
  String.length (p +:+ t) = (String.length p + String.length t)%nat.
Proof.
  induction p as [|c p IH]; [reflexivity|].
  rewrite append_cons. cbn [String.length]. now rewrite IH.
Qed.

Lemma string_drop_app (p t : string) :
  string_drop (String.length p) (p +:+ t) = t.
Proof.
  induction p as [|c p IH]; [reflexivity|].
  rewrite append_cons. cbn [String.length string_drop]. exact IH.
Qed.

Lemma string_drop_split (n : nat) :
  forall s, (n <= String.length s)%nat -> exists p, s = p +:+ string_drop n s.
Proof.
  induction n as [|n IH]; intros s Hn.
  - exists EmptyString. reflexivity.
  - destruct s as [|c s]; cbn [String.length] in Hn; [lia|].
    destruct (IH s) as [p Hp]; [lia|].
    exists (String c p). rewrite append_cons. cbn [string_drop]. now f_equal.
Qed.

Lemma HasSuffix_iff (s suffix : string) :
  strings.HasSuffix s suffix = true <-> exists p, s = p +:+ suffix.
Proof.
  unfold strings.HasSuffix. rewrite andb_true_iff, Nat.leb_le, String.eqb_eq.
  split.
  - intros [Hlen Hdrop].
    destruct (string_drop_split (String.length s - String.length suffix) s)
      as [p Hp]; [lia|].
    exists p. now rewrite Hdrop in Hp.
  - intros [p ->]. rewrite string_length_app. split; [lia|].
    replace (String.length p + String.length suffix - String.length suffix)%nat
      with (String.length p) by lia.
    apply string_drop_app.
Qed.

Lemma hasSlash_app (p : string) (t : string) :
  hasSlash (p +:+ String "/"%char t) = true.
Proof.
  induction p as [|c p IH]; [reflexivity|].
  rewrite append_cons. cbn [hasSlash]. rewrite IH. apply orb_true_r.
Qed.

(** The text after the last slash is unique. *)
Lemma last_slash_unique (a : string) :
  forall (p u x : string),
    hasSlash u = false -> hasSlash x = false ->
    a +:+ String "/"%char u = p +:+ String "/"%char x -> u = x.
Proof.
  induction a as [|c a IH]; intros p u x Hu Hx Heq.
  - destruct p as [|c' p]; rewrite ?append_cons, ?append_nil in Heq.
    + now inversion Heq.
    + inversion Heq as [[Hc Hrest]]. subst u.
      rewrite hasSlash_app in Hu. discriminate.
  - destruct p as [|c' p]; rewrite ?append_cons, ?append_nil in Heq.
    + inversion Heq as [[Hc Hrest]]. subst x.
      rewrite hasSlash_app in Hx. discriminate.
    + inversion Heq as [[Hc Hrest]]. eapply IH; eauto.
Qed.

Lemma author_suffix_eqb (u x : string) :
  hasSlash u = false -> hasSlash x = false ->
  strings.HasSuffix (authorUrl u) ("/" +:+ x) = String.eqb x u.
Proof.
  intros Hu Hx.
  destruct (String.eqb_spec x u) as [->|Hne].
  - apply HasSuffix_iff. exists "https://space.bilibili.com". reflexivity.
  - apply not_true_is_false. intros Hs.
    apply HasSuffix_iff in Hs as [p Hp].
    apply Hne. symmetry.
    apply (last_slash_unique "https://space.bilibili.com" p u x Hu Hx).
    exact Hp.
Qed.

(** ** How a pass ends *)

Lemma fetch_total (net : network) (uids : list string) :
  exists vs err, fetchBilibiliUserVideos net uids = Done (vs, err).
Proof.
  rewrite fetch_spec. cbv zeta.
  destruct (poolErr net); [eauto|].
  destruct (length _ =? 0)%nat; [eauto|].
  destruct (0 <? _)%nat; eauto.
Qed.



(** The three ways a pass can go when the cache map is allocated. *)
Lemma aggregate_spec (isDevelopment : bool) (now : time.Time) (net : network)
  (widget : bilibiliWidget) (m : gmap string cacheEntry) :
  cachedVideos widget = Some m ->
  let needUpdate := fst (staleSources isDevelopment now widget) in
  let cached := snd (staleSources isDevelopment now widget) in
  (needUpdate = []
   /\ aggregate isDevelopment now net widget = Done (Merged (Some m) cached))
  \/ (needUpdate <> []
      /\ exists vs err,
           fetchBilibiliUserVideos net needUpdate = Done (vs, Some err)
           /\ aggregate isDevelopment now net widget = Done (Failed err))
  \/ (needUpdate <> []
      /\ exists newVideos m',
           fetchBilibiliUserVideos net needUpdate = Done (newVideos, None)
           /\ aggregate isDevelopment now net widget
              = Done (Merged (Some m')
                  (cached
                     ++ concat (map (upVideosOf newVideos)
                          (List.filter (fun up => contains needUpdate (UID up))
                             (UPs widget)))))
           /\ forall uid, ~ In uid needUpdate -> m' !! uid = m !! uid).
Proof.
  intros Hcache. unfold aggregate.
  destruct (staleSources isDevelopment now widget) as [needUpdate cached].
  cbn [fst snd].
  destruct needUpdate as [|uid rest].
  - left. rewrite Hcache. auto.
  - right. cbn [length Nat.ltb Nat.leb].
    destruct (fetch_total net (uid :: rest)) as (vs & err & Hfetch).
    rewrite Hfetch. cbn [obind].
    destruct err as [err|].
    + left. split; [discriminate|]. eauto.
    + right. split; [discriminate|].
      rewrite Hcache.
      destruct (refreshCache_spec isDevelopment now widget (uid :: rest) vs
                  (UPs widget) m cached) as (m' & Heq & Hframe).
      exists vs, m'. rewrite Heq. cbn [obind fst snd]. auto.
Qed.

Lemma concat_map_block {A B : Type} (f : A -> list B) (l : list A) (x : A) :
  In x l -> exists before after, concat (map f l) = before ++ f x ++ after.
Proof.
  intros Hin. apply in_split in Hin as (l1 & l2 & ->).
  exists (concat (map f l1)), (concat (map f l2)).
  rewrite map_app, concat_app. reflexivity.
Qed.

(** C7.  A configured source that the check does not put in [needUpdate]
    has a cache entry; the pass completes (for a limit that is not
    negative), and that entry, videos and expiry, is the same after the
    pass as before it; when the pass reaches the merge, the merged list
    holds the entry's videos as one unchanged block, the widget's video
    list is that merged list, sorted and cut to the limit, and it holds
    every one of the entry's videos when the merged list is within the
    limit. *)
Theorem fresh_source_kept_and_merged (isDevelopment : bool) (now : time.Time)
  (net : network) (widget : bilibiliWidget) (up : bilibiliUPConfig) :
  0 <= Limit widget ->
  In up (UPs widget) ->
  ~ In (UID up) (fst (staleSources isDevelopment now widget)) ->
  exists entry widget',
    mapGet (cachedVideos widget) (UID up) = Some entry
    /\ update isDevelopment now net widget = Done widget'
    /\ mapGet (cachedVideos widget') (UID up) = Some entry
    /\ forall cache allVideos,
         aggregate isDevelopment now net widget = Done (Merged cache allVideos) ->
         (exists before after, allVideos = before ++ videos entry ++ after)
         /\ Videos widget'
            = take (Z.to_nat (Limit widget)) (sortByNewest allVideos)
         /\ (Z.of_nat (length allVideos) <= Limit widget ->
             forall v, In v (videos entry) -> In v (Videos widget')).
Proof.
  intros Hlimit Hin Hfresh.
  assert (Hkeep : forall (allVideos before after l : videoList),
    allVideos = before ++ l ++ after ->
    Z.of_nat (length allVideos) <= Limit widget ->
    forall v, In v l ->
      In v (take (Z.to_nat (Limit widget)) (sortByNewest allVideos))).
  { intros allVideos before after l Heq Hle v Hv.
    rewrite take_ge by (rewrite sortByNewest_length; lia).
    eapply Permutation_in; [symmetry; apply sortByNewest_perm|].
    rewrite Heq. apply in_or_app. right. apply in_or_app. now left. }
  assert (Hnot : isDevelopment = false
                 /\ expired now (cachedVideos widget) (UID up) = false).
  { rewrite needUpdate_In in Hfresh.
    destruct isDevelopment; [exfalso; apply Hfresh; split; [now apply in_map|auto]|].
    split; [reflexivity|].
    destruct (expired now (cachedVideos widget) (UID up)) eqn:He; [|reflexivity].
    exfalso. apply Hfresh. split; [now apply in_map|auto]. }
  destruct Hnot as [-> Hexp].
  unfold expired in Hexp.
  destruct (mapGet (cachedVideos widget) (UID up)) as [entry|] eqn:Hget;
    [|discriminate].
  destruct (cachedVideos widget) as [m|] eqn:Hcache; [|discriminate].
  cbn [mapGet] in Hget.
  assert (Hblock : exists before after,
             snd (staleSources false now widget)
             = before ++ videos entry ++ after).
  { rewrite staleSources_spec. cbn [snd].
    destruct (concat_map_block
                (fun up0 => cachedOf (cachedVideos widget) (UID up0))
                (List.filter
                   (fun up0 => negb (expired now (cachedVideos widget) (UID up0)))
                   (UPs widget)) up) as (before & after & Heq).
    - apply filter_In. split; [assumption|].
      unfold expired. rewrite Hcache. cbn [mapGet]. rewrite Hget, Hexp. reflexivity.
    - exists before, after. rewrite Heq. unfold cachedOf.
      rewrite Hcache. cbn [mapGet]. rewrite Hget. reflexivity. }
  exists entry.
  destruct (aggregate_spec false now net widget m Hcache)
    as [(Hnil & Hagg)|[(Hne & vs & err & Hfetch & Hagg)
                      |(Hne & newVideos & m' & Hfetch & Hagg & Hframe)]].
  - eexists. split; [reflexivity|].
    split; [apply (update_Merged _ _ _ _ _ _ Hagg Hlimit)|].
    split; [cbn; assumption|].
    intros cache allVideos Hagg'. rewrite Hagg in Hagg'.
    injection Hagg' as Hc Ha. subst cache allVideos.
    change (checkCache now (cachedVideos widget) (UPs widget) [] [])
      with (staleSources false now widget).
    split; [exact Hblock|]. split; [reflexivity|].
    destruct Hblock as (before & after & Heq).
    cbn [Videos withVideos]. now apply (Hkeep _ before after).
  - eexists. split; [reflexivity|].
    split; [apply (update_Failed _ _ _ _ _ Hagg)|].
    split; [cbn; rewrite Hcache; assumption|].
    intros cache allVideos Hagg'. rewrite Hagg in Hagg'. discriminate.
  - eexists. split; [reflexivity|].
    split; [apply (update_Merged _ _ _ _ _ _ Hagg Hlimit)|].
    split; [cbn; rewrite (Hframe _ Hfresh); assumption|].
    intros cache allVideos Hagg'. rewrite Hagg in Hagg'.
    injection Hagg' as Hc Ha. subst cache allVideos.
    change (checkCache now (cachedVideos widget) (UPs widget) [] [])
      with (staleSources false now widget).
    destruct Hblock as (before & after & Heq).
    assert (Hall : snd (staleSources false now widget)
              ++ concat (map (upVideosOf newVideos)
                   (List.filter
                      (fun up0 =>
                         contains (fst (staleSources false now widget)) (UID up0))
                      (UPs widget)))
            = before ++ videos entry
              ++ (after ++ concat (map (upVideosOf newVideos)
                    (List.filter
                       (fun up0 =>
                          contains (fst (staleSources false now widget))
                            (UID up0))
                       (UPs widget))))).
    { rewrite Heq. now rewrite <- !app_assoc. }
    split; [eauto|]. split; [reflexivity|].
    cbn [Videos withVideos]. now apply (Hkeep _ _ _ _ Hall).
Qed.

(** ** The merged list *)



Lemma filter_none {A : Type} (f : A -> bool) (l : list A) :
  (forall z, In z l -> f z = false) -> List.filter f l = [].
Proof.
  induction l as [|y l IH]; intros Hall; [reflexivity|].
  cbn [List.filter]. rewrite (Hall y) by (now left).
  apply IH. intros z Hz. apply Hall. now right.
Qed.







(** ** The entries a pass writes *)

Lemma refreshCache_untouched (isDevelopment : bool) (now : time.Time)
  (widget : bilibiliWidget) (needUpdate : list string) (newVideos : videoList)
  (ups : list bilibiliUPConfig) :
  forall (m m' : gmap string cacheEntry) (allVideos allVideos' : videoList),
    refreshCache isDevelopment now widget needUpdate newVideos ups (Some m)
      allVideos = Done (Some m', allVideos') ->
    forall uid, ~ In uid (map UID ups) -> m' !! uid = m !! uid.
Proof.
  induction ups as [|up rest IH]; intros m m' allVideos allVideos' Heq uid Hnot.
  - cbn in Heq. congruence.
  - cbn [refreshCache] in Heq. cbn [map] in Hnot.
    destruct (contains needUpdate (UID up)); cbn [negb mapPut obind] in Heq.
    + rewrite (IH _ _ _ _ Heq uid) by (intros H; apply Hnot; now right).
      apply lookup_insert_ne. intros Huid. apply Hnot. now left.
    + apply (IH _ _ _ _ Heq uid). intros H. apply Hnot. now right.
Qed.

Lemma refreshCache_entries (isDevelopment : bool) (now : time.Time)
  (widget : bilibiliWidget) (needUpdate : list string) (newVideos : videoList)
  (ups : list bilibiliUPConfig) :
  forall (m m' : gmap string cacheEntry) (allVideos allVideos' : videoList),
    refreshCache isDevelopment now widget needUpdate newVideos ups (Some m)
      allVideos = Done (Some m', allVideos') ->
    forall uid, In uid needUpdate -> In uid (map UID ups) ->
    exists up,
      In up ups /\ UID up = uid
      /\ m' !! uid
         = Some {| videos := upVideosOf newVideos up;
                   expireAt :=
                     time.Add now (cacheDuration isDevelopment widget up) |}.
Proof.
  induction ups as [|up rest IH];
    intros m m' allVideos allVideos' Heq uid Hneed Hconf; [contradiction|].
  cbn [refreshCache] in Heq.
  destruct (in_dec string_dec uid (map UID rest)) as [Hrest|Hrest].
  - destruct (contains needUpdate (UID up)); cbn [negb mapPut obind] in Heq;
      destruct (IH _ _ _ _ Heq uid Hneed Hrest) as (up' & Hin & Huid & Hget);
      exists up'; (split; [now right|auto]).
  - destruct Hconf as [Huid|Hconf]; [|contradiction].
    pose proof (proj2 (contains_In needUpdate uid) Hneed) as Hc.
    rewrite <- Huid in Hc. rewrite Hc in Heq. cbn [negb mapPut obind] in Heq.
    exists up. split; [now left|]. split; [assumption|].
    rewrite (refreshCache_untouched _ _ _ _ _ _ _ _ _ _ Heq uid Hrest).
    rewrite <- Huid. apply lookup_insert_eq.
Qed.

Lemma aggregate_entries (isDevelopment : bool) (now : time.Time) (net : network)
  (widget : bilibiliWidget) (cache : option (gmap string cacheEntry))
  (allVideos : videoList) :
  aggregate isDevelopment now net widget = Done (Merged cache allVideos) ->
  forall uid, In uid (fst (staleSources isDevelopment now widget)) ->
  exists up newVideos,
    In up (UPs widget) /\ UID up = uid
    /\ mapGet cache uid
       = Some {| videos := upVideosOf newVideos up;
                 expireAt :=
                   time.Add now (cacheDuration isDevelopment widget up) |}.
Proof.
  intros Hagg uid Hneed.
  pose proof (proj1 (needUpdate_In isDevelopment now widget uid) Hneed)
    as [Hconf _].
  unfold aggregate in Hagg.
  destruct (staleSources isDevelopment now widget) as [needUpdate cached].
  cbn [fst] in Hneed.
  destruct needUpdate as [|uid0 rest0]; [contradiction|].
  cbn [length Nat.ltb Nat.leb] in Hagg.
  destruct (fetchBilibiliUserVideos net (uid0 :: rest0)) as [[vs [err|]]|];
    cbn [obind] in Hagg; [discriminate| |discriminate].
  destruct (cachedVideos widget) as [m|].
  - destruct (refreshCache_spec isDevelopment now widget (uid0 :: rest0) vs
                (UPs widget) m cached) as (m' & Heq & _).
    rewrite Heq in Hagg. cbn [obind fst snd] in Hagg.
    injection Hagg as Hc _. subst cache.
    destruct (refreshCache_entries _ _ _ _ _ _ _ _ _ _ Heq uid Hneed Hconf)
      as (up & Hin & Huid & Hget).
    exists up, vs. auto.
  - rewrite refreshCache_nil in Hagg.
    destruct (forallb _ (UPs widget)) eqn:Hall; [|discriminate].
    rewrite forallb_forall in Hall.
    apply in_map_iff in Hconf as (up & Huid & Hin).
    specialize (Hall up Hin). rewrite Huid in Hall.
    rewrite (proj2 (contains_In _ uid) Hneed) in Hall. discriminate.
Qed.

(** C6.  The cache duration of a source is the per-source override when
    that is positive, otherwise the widget's default when that is
    positive, otherwise two hours (7200 seconds), and zero in development
    mode whatever the configuration says; and in a pass that reaches the
    merge, every refreshed source gets a cache entry that expires at [now]
    plus the cache duration of a configured UP with that UID. *)
Theorem effective_cache_duration (isDevelopment : bool) (now : time.Time)
  (net : network) (widget : bilibiliWidget) (up : bilibiliUPConfig) :
  cacheDuration isDevelopment widget up =
    (if isDevelopment then 0
     else if 0 <? Cache up then Cache up
     else if 0 <? UpdateInterval widget then UpdateInterval widget
     else 7200 * 1000000000)
  /\ (forall cache allVideos,
        aggregate isDevelopment now net widget = Done (Merged cache allVideos) ->
        forall uid, In uid (fst (staleSources isDevelopment now widget)) ->
        exists up' newVideos,
          In up' (UPs widget) /\ UID up' = uid
          /\ mapGet cache uid
             = Some {| videos := upVideosOf newVideos up';
                       expireAt :=
                         time.Add now
                           (cacheDuration isDevelopment widget up') |}).
Proof.
  split; [apply cacheDuration_order|].
  intros cache allVideos Hagg uid Hneed.
  exact (aggregate_entries isDevelopment now net widget cache allVideos
           Hagg uid Hneed).
Qed.

(** C2 as stated fails.  The entry of UP 1 expires two hours after the
    first pass; at a check made exactly at that time, [now] is at the
    expiry, and the source is not put in [needUpdate]. *)
Lemma at_expiry_not_stale :
  In (mkUP "1" 0) (UPs afterFirstPass)
  /\ (exists entry,
        mapGet (cachedVideos afterFirstPass) "1" = Some entry
        /\ expireAt entry <= 2 * time.Hour)
  /\ ~ In "1" (fst (staleSources false (2 * time.Hour) afterFirstPass)).
Proof.
  split; [left; reflexivity|].
  split.
  - eexists. split; [vm_compute; reflexivity|]. vm_compute. discriminate.
  - vm_compute. tauto.
Qed.

(** * The theorems at concrete inputs *)

Lemma initialize_defaults_witness :
  let widget := mkWidget [] "" 0 (-5) [] 0 0 None None in
  let widget' := fst (initialize widget) in
  0 < Limit widget'
  /\ Limit widget' = (if Limit widget <=? 0 then 25 else Limit widget)
  /\ (CollapseAfterRows widget = 0 \/ CollapseAfterRows widget < -1 ->
      CollapseAfterRows widget' = 4)
  /\ (~ (CollapseAfterRows widget = 0 \/ CollapseAfterRows widget < -1) ->
      CollapseAfterRows widget' = CollapseAfterRows widget)
  /\ (CollapseAfter widget = 0 \/ CollapseAfter widget < -1 ->
      CollapseAfter widget' = 7)
  /\ (~ (CollapseAfter widget = 0 \/ CollapseAfter widget < -1) ->
      CollapseAfter widget' = CollapseAfter widget)
  /\ cachedVideos widget' = Some ∅
  /\ snd (initialize widget) = None.
Proof.
  exact (initialize_defaults (mkWidget [] "" 0 (-5) [] 0 0 None None)).
Defined.

Lemma stale_iff_forced_missing_or_after_expiry_witness :
  In (mkUP "1" 0) (UPs afterFirstPass)
  /\ ((In (UID (mkUP "1" 0)) (fst (staleSources true 0 afterFirstPass)) <->
         true = true
         \/ mapGet (cachedVideos afterFirstPass) (UID (mkUP "1" 0)) = None
         \/ exists entry,
              mapGet (cachedVideos afterFirstPass) (UID (mkUP "1" 0)) = Some entry
              /\ expireAt entry < 0)
      /\ (cacheDuration true afterFirstPass (mkUP "1" 0) = 0 ->
          forall (now' : time.Time) (widget' : bilibiliWidget),
            In (mkUP "1" 0) (UPs widget') ->
            In (UID (mkUP "1" 0)) (fst (staleSources true now' widget'))))
  /\ In "1" (fst (staleSources true 0 afterFirstPass)).
Proof.
  assert (H : In (mkUP "1" 0) (UPs afterFirstPass)).
  { vm_compute. left. reflexivity. }
  pose proof (stale_iff_forced_missing_or_after_expiry true 0 afterFirstPass
                (mkUP "1" 0) H) as T.
  split; [exact H|]. split; [exact T|].
  exact (proj2 T eq_refl 0 afterFirstPass H).
Defined.

Lemma delayed_Do_min_spacing_witness :
  Forall (fun call => delayed.pace_ok (fst call)) backToBack
  /\ delayed.lastReq delayed.bilibiliHTTPClient <= 0
  /\ delayed.delay delayed.bilibiliHTTPClient <= time.maxDuration
  /\ (forall p req, delayed.pace_ok p ->
        exists t,
          delayed.Do refusing delayed.bilibiliHTTPClient 0 p req
            = (delayed.mkClient (delayed.delay delayed.bilibiliHTTPClient) t,
               t, delayed.passOn (refusing req))
          /\ delayed.lastReq delayed.bilibiliHTTPClient
             + delayed.delay delayed.bilibiliHTTPClient <= t)
  /\ (forall (i : nat) (t t' : time.Time),
        (delayed.lastReq delayed.bilibiliHTTPClient
           :: delayed.DoAll refusing
                delayed.bilibiliHTTPClient 0 backToBack) !! i = Some t ->
        (delayed.lastReq delayed.bilibiliHTTPClient
           :: delayed.DoAll refusing
                delayed.bilibiliHTTPClient 0 backToBack) !! S i = Some t' ->
        delayed.delay delayed.bilibiliHTTPClient <= t' - t).
Proof.
  assert (H1 : Forall (fun call => delayed.pace_ok (fst call)) backToBack).
  { repeat constructor; simpl; lia. }
  assert (H2 : delayed.lastReq delayed.bilibiliHTTPClient <= 0).
  { vm_compute. discriminate. }
  assert (H3 : delayed.delay delayed.bilibiliHTTPClient <= time.maxDuration).
  { vm_compute. discriminate. }
  split; [exact H1|]. split; [exact H2|]. split; [exact H3|].
  exact (delayed_Do_min_spacing refusing
           delayed.bilibiliHTTPClient 0 backToBack H1 H2 H3).
Defined.

Lemma fetch_error_by_failures_and_items_witness :
  Forall (fun uid => buildable uid = true) ["1"; "2"; "3"]
  /\ ((exists vs err,
         fetchBilibiliUserVideos refuseAll ["1"; "2"; "3"] = Done (vs, err)
         /\ (isNoContent err = true <->
               poolErr refuseAll <> None
               \/ obtained refuseAll ["1"; "2"; "3"] = [])
         /\ (isPartialContent err = true <->
               poolErr refuseAll = None
               /\ (0 < failedSources refuseAll ["1"; "2"; "3"])%nat
               /\ obtained refuseAll ["1"; "2"; "3"] <> [])
         /\ (isPartialContent err = true ->
               err = Some (ErrMissingVideos
                             (failedSources refuseAll ["1"; "2"; "3"])))
         /\ (err = None <->
               poolErr refuseAll = None
               /\ failedSources refuseAll ["1"; "2"; "3"] = 0%nat
               /\ obtained refuseAll ["1"; "2"; "3"] <> [])
         /\ (isNoContent err = false ->
               Permutation vs (obtained refuseAll ["1"; "2"; "3"])))
      /\ (forall (isDevelopment : bool) (now : time.Time)
                 (widget : bilibiliWidget),
            fst (staleSources isDevelopment now widget) = ["1"; "2"; "3"] ->
            ["1"; "2"; "3"] <> [] ->
            failedSources refuseAll ["1"; "2"; "3"] = length ["1"; "2"; "3"] ->
            exists widget' err,
              update isDevelopment now refuseAll widget = Done widget'
              /\ cachedVideos widget' = cachedVideos widget
              /\ Videos widget' = Videos widget
              /\ Error widget' = Some (ErrFetchFailed err)
              /\ isNoContent (Some err) = true))
  /\ (exists widget' err,
        update false 100 refuseAll threeUPs = Done widget'
        /\ cachedVideos widget' = cachedVideos threeUPs
        /\ Videos widget' = Videos threeUPs
        /\ Error widget' = Some (ErrFetchFailed err)
        /\ isNoContent (Some err) = true).
Proof.
  assert (H : Forall (fun uid => buildable uid = true) ["1"; "2"; "3"]).
  { repeat constructor. }
  pose proof (fetch_error_by_failures_and_items refuseAll ["1"; "2"; "3"] H) as T.
  split; [exact H|]. split; [exact T|].
  apply (proj2 T false 100 threeUPs).
  - vm_compute. reflexivity.
  - discriminate.
  - vm_compute. reflexivity.
Defined.


Lemma effective_cache_duration_witness :
  (cacheDuration false twoUPs (mkUP "1" 0) =
     (if false then 0
      else if 0 <? Cache (mkUP "1" 0) then Cache (mkUP "1" 0)
      else if 0 <? UpdateInterval twoUPs then UpdateInterval twoUPs
      else 7200 * 1000000000)
   /\ (forall cache allVideos,
         aggregate false 100 twoOfThree twoUPs = Done (Merged cache allVideos) ->
         forall uid, In uid (fst (staleSources false 100 twoUPs)) ->
         exists up' newVideos,
           In up' (UPs twoUPs) /\ UID up' = uid
           /\ mapGet cache uid
              = Some {| videos := upVideosOf newVideos up';
                        expireAt :=
                          time.Add 100 (cacheDuration false twoUPs up') |}))
  /\ (exists up' newVideos,
        In up' (UPs twoUPs) /\ UID up' = "2"
        /\ mapGet (cacheOf passOfTwo) "2"
           = Some {| videos := upVideosOf newVideos up';
                     expireAt := time.Add 100 (cacheDuration false twoUPs up') |}).
Proof.
  pose proof (effective_cache_duration false 100 twoOfThree twoUPs (mkUP "1" 0))
    as T.
  split; [exact T|].
  apply (proj2 T (cacheOf passOfTwo) (mergedOf passOfTwo)).
  - vm_compute. reflexivity.
  - vm_compute. right. left. reflexivity.
Defined.

Lemma fresh_source_kept_and_merged_witness :
  0 <= Limit afterFirstPass
  /\ In (mkUP "1" 0) (UPs afterFirstPass)
  /\ ~ In (UID (mkUP "1" 0)) (fst (staleSources false 100 afterFirstPass))
  /\ exists entry widget',
       mapGet (cachedVideos afterFirstPass) (UID (mkUP "1" 0)) = Some entry
       /\ update false 100 emptyAnswers afterFirstPass = Done widget'
       /\ mapGet (cachedVideos widget') (UID (mkUP "1" 0)) = Some entry
       /\ forall cache allVideos,
            aggregate false 100 emptyAnswers afterFirstPass
              = Done (Merged cache allVideos) ->
            (exists before after, allVideos = before ++ videos entry ++ after)
            /\ Videos widget'
               = take (Z.to_nat (Limit afterFirstPass)) (sortByNewest allVideos)
            /\ (Z.of_nat (length allVideos) <= Limit afterFirstPass ->
                forall v, In v (videos entry) -> In v (Videos widget')).
Proof.
  assert (H1 : 0 <= Limit afterFirstPass) by (vm_compute; discriminate).
  assert (H2 : In (mkUP "1" 0) (UPs afterFirstPass)).
  { vm_compute. left. reflexivity. }
  assert (H3 : ~ In (UID (mkUP "1" 0))
                 (fst (staleSources false 100 afterFirstPass))).
  { vm_compute. tauto. }
  split; [exact H1|]. split; [exact H2|]. split; [exact H3|].
  exact (fresh_source_kept_and_merged false 100 emptyAnswers afterFirstPass
           (mkUP "1" 0) H1 H2 H3).
Defined.

Lemma update_never_clears_Error_witness :
  update false 200 oneVideoEach afterFailedPass = Done afterSecondPass
  /\ ((forall cache allVideos,
         aggregate false 200 oneVideoEach afterFailedPass
           = Done (Merged cache allVideos) ->
         Error afterSecondPass = Error afterFailedPass)
      /\ (forall err,
            aggregate false 200 oneVideoEach afterFailedPass = Done (Failed err) ->
            Error afterSecondPass = Some (ErrFetchFailed err))
      /\ (Error afterFailedPass <> None -> Error afterSecondPass <> None))
  /\ Error afterSecondPass = Some (ErrFetchFailed (ErrMissingVideos 1))
  /\ length (Videos afterSecondPass) = 3%nat.
Proof.
  assert (H : update false 200 oneVideoEach afterFailedPass = Done afterSecondPass).
  { vm_compute. reflexivity. }
  pose proof (update_never_clears_Error false 200 oneVideoEach afterFailedPass
                afterSecondPass H) as T.
  split; [exact H|]. split; [exact T|]. split.
  - apply (proj1 T (cacheOf secondPass) (mergedOf secondPass)).
    vm_compute. reflexivity.
  - vm_compute. reflexivity.
Defined.

(** * Further properties of the code *)

(** ** The helper [contains] *)

(** X1.  [contains] answers true exactly for the strings that occur in
    the slice, and false exactly for the others; it distributes over
    appending slices. *)
Theorem contains_iff_member (slice more : list string) (str : string) :
  (contains slice str = true <-> In str slice)
  /\ (contains slice str = false <-> ~ In str slice)
  /\ contains (slice ++ more) str = contains slice str || contains more str.
Proof.
  split; [apply contains_In|]. split.
  - rewrite <- contains_In. destruct (contains slice str); split; congruence.
  - induction slice as [|s rest IH]; [reflexivity|].
    cbn [app contains]. destruct (String.eqb s str); [reflexivity|exact IH].
Qed.

(** ** More on the fetcher *)

Lemma fetch_error_shape (net : network) (uids : list string) (vs : videoList)
  (err : option error) :
  fetchBilibiliUserVideos net uids = Done (vs, err) ->
  (vs = [] /\ (err = Some errNoContent
               \/ exists cause, err = Some (ErrPoolNoContent cause)))
  \/ (vs <> []
      /\ (err = None
          \/ exists k, err = Some (ErrMissingVideos k) /\ (0 < k)%nat)).
Proof.
  rewrite fetch_spec. cbv zeta.
  destruct (poolErr net) as [cause|].
  { intros H. injection H as <- <-. left. eauto. }
  destruct (length _ =? 0)%nat eqn:Hlen.
  { intros H. injection H as <- <-. left. auto. }
  assert (Hne : sortByNewest
                  (concat (zip_with itemsOf uids
                             (imap (answer net) (buildRequests uids [])))) <> []).
  { intros Hnil. apply (f_equal length) in Hnil.
    rewrite sortByNewest_length in Hnil. cbn [length] in Hnil.
    rewrite Hnil in Hlen. discriminate. }
  destruct (Nat.ltb_spec 0
              (length (List.filter sourceFailed
                         (imap (answer net) (buildRequests uids []))))) as [Hk|Hk];
    intros H; injection H as <- <-; right; (split; [exact Hne|]); eauto.
Qed.

(** X2.  The fetcher never panics: its index expressions [errs[i]] and
    [uids[i]] stay in range whatever the network does and however many
    requests were skipped.  It returns no video exactly when its error is
    the no-content error, a nil error only together with at least one
    video, and for an empty list of UIDs the no-content error. *)
Theorem fetch_always_returns (net : network) (uids : list string) :
  exists vs err,
    fetchBilibiliUserVideos net uids = Done (vs, err)
    /\ (vs = [] <-> isNoContent err = true)
    /\ (err = None -> vs <> [])
    /\ (uids = [] -> isNoContent err = true).
Proof.
  destruct (fetch_total net uids) as (vs & err & Hfetch).
  exists vs, err. split; [exact Hfetch|].
  pose proof (fetch_error_shape net uids vs err Hfetch) as Hshape.
  split; [|split].
  - destruct Hshape as [[-> [->|[c ->]]]|[Hne [->|(k & -> & Hk)]]]; cbn;
      split; congruence.
  - destruct Hshape as [[-> [->|[c ->]]]|[Hne _]]; congruence.
  - intros ->. rewrite fetch_spec in Hfetch. cbn in Hfetch.
    destruct (poolErr net); injection Hfetch as <- <-; reflexivity.
Qed.




Lemma some_item_some_success (uids : list string) :
  forall outs,
    concat (zip_with itemsOf uids outs) <> [] ->
    (length (List.filter sourceFailed outs) < length outs)%nat.
Proof.
  intros outs Hne.
  pose proof (List.filter_length_le sourceFailed outs) as Hle.
  destruct (Nat.eq_dec (length (List.filter sourceFailed outs)) (length outs))
    as [Heq|Hneq]; [|lia].
  exfalso. apply Hne.
  apply no_items_when_all_failed, filter_length_all, Heq.
Qed.

(** X4.  When the fetcher returns the partial-content error, the number
    it carries is at least one and smaller than the number of requests
    that were sent, which is at most the number of UIDs. *)
Theorem partial_count_bounds (net : network) (uids : list string)
  (vs : videoList) (k : nat) :
  fetchBilibiliUserVideos net uids = Done (vs, Some (ErrMissingVideos k)) ->
  (1 <= k)%nat
  /\ (k < length (buildRequests uids []))%nat
  /\ (length (buildRequests uids []) <= length uids)%nat.
Proof.
  rewrite fetch_spec. cbv zeta.
  destruct (poolErr net); [discriminate|].
  destruct (length _ =? 0)%nat eqn:Hlen; [discriminate|].
  destruct (Nat.ltb_spec 0
              (length (List.filter sourceFailed
                         (imap (answer net) (buildRequests uids []))))) as [Hk|Hk];
    [|discriminate].
  intros H. injection H as _ <-.
  split; [lia|]. split; [|apply buildRequests_length].
  rewrite <- (length_imap (answer net) (buildRequests uids [])).
  apply (some_item_some_success uids).
  intros Hnil. rewrite Hnil in Hlen. discriminate.
Qed.

Lemma aggregate_Failed_inv (isDevelopment : bool) (now : time.Time)
  (net : network) (widget : bilibiliWidget) (err : error) :
  aggregate isDevelopment now net widget = Done (Failed err) ->
  fst (staleSources isDevelopment now widget) <> []
  /\ exists vs,
       fetchBilibiliUserVideos net (fst (staleSources isDevelopment now widget))
       = Done (vs, Some err).
Proof.
  unfold aggregate.
  destruct (staleSources isDevelopment now widget) as [needUpdate cached].
  cbn [fst].
  destruct needUpdate as [|uid rest]; [discriminate|].
  cbn [length Nat.ltb Nat.leb].
  destruct (fetchBilibiliUserVideos net (uid :: rest)) as [[vs [e|]]|];
    cbn [obind]; [|intros H|discriminate].
  - intros H. injection H as ->. split; [discriminate|eauto].
  - destruct (refreshCache _ _ _ _ _ _ _ _); discriminate.
Qed.

(** X5.  The error a pass of [update] stores when it returns early is,
    for [errors.Is], the no-content error or the partial-content error
    and never both: wrapping keeps the fetcher's sentinel. *)
Theorem stored_error_is_one_sentinel (isDevelopment : bool) (now : time.Time)
  (net : network) (widget : bilibiliWidget) (err : error) :
  aggregate isDevelopment now net widget = Done (Failed err) ->
  update isDevelopment now net widget
    = Done (withError widget (Some (ErrFetchFailed err)))
  /\ errors_Is (ErrFetchFailed err) errNoContent = errors_Is err errNoContent
  /\ errors_Is (ErrFetchFailed err) errPartialContent
     = errors_Is err errPartialContent
  /\ xorb (errors_Is (ErrFetchFailed err) errNoContent)
          (errors_Is (ErrFetchFailed err) errPartialContent) = true.
Proof.
  intros Hagg. split; [now apply update_Failed|].
  destruct (aggregate_Failed_inv _ _ _ _ _ Hagg) as (_ & vs & Hfetch).
  destruct (fetch_error_shape _ _ _ _ Hfetch)
    as [[_ [H|[c H]]]|[_ [H|(k & H & _)]]];
    try discriminate; injection H as ->; repeat split; reflexivity.
Qed.

(** X6.  The request loop keeps the order of the UIDs and skips exactly
    those for which no request can be created: the requests it builds are
    the requests of the UIDs that parse, appended to those it started
    with. *)
Theorem buildRequests_skips_unparsable (uids : list string)
  (requests : list http.Request) :
  buildRequests uids requests
    = requests ++ map requestOf (List.filter buildable uids)
  /\ length (buildRequests uids requests)
     = (length requests + length (List.filter buildable uids))%nat.
Proof.
  assert (H : forall requests,
    buildRequests uids requests
    = requests ++ map requestOf (List.filter buildable uids)).
  { induction uids as [|uid rest IH]; intros acc; cbn [buildRequests].
    - cbn. now rewrite app_nil_r.
    - cbn [List.filter]. unfold http.NewRequest, buildable at 1.
      destruct (url.parses (apiUrl uid)).
      + rewrite IH. cbn [map]. rewrite <- app_assoc. reflexivity.
      + apply IH. }
  split; [apply H|]. rewrite H, length_app, List.length_map. reflexivity.
Qed.

Lemma aligned_items (uids : list string) :
  forall (f : nat -> http.Request -> bilibiliVideoResponse * option error) v,
    In v (concat (zip_with itemsOf uids (imap f (map requestOf uids)))) ->
    exists i uid it,
      uids !! i = Some uid
      /\ sourceFailed (f i (requestOf uid)) = false
      /\ In it (Vlist (fst (f i (requestOf uid))))
      /\ v = toVideo uid it.
Proof.
  induction uids as [|uid rest IH]; intros f v Hv; [contradiction|].
  cbn [map] in Hv. rewrite imap_cons in Hv.
  cbn [zip_with concat] in Hv. apply in_app_or in Hv as [Hv|Hv].
  - unfold itemsOf in Hv.
    destruct (sourceFailed (f 0%nat (requestOf uid))) eqn:Hf; [contradiction|].
    apply in_map_iff in Hv as (it & <- & Hit).
    exists 0%nat, uid, it. auto.
  - destruct (IH (f ∘ S) v Hv) as (i & uid' & it & Hi & Hf & Hit & Hv').
    exists (S i), uid', it. auto.
Qed.

(** X7.  When a request can be created for every UID, each video the
    fetcher returns is an item of the answer to the request of the UID it
    is attributed to: the answer at position [i] of the job is the answer
    for [uids[i]], it is not a failure, and the video is built from one of
    its items with that UID. *)
Theorem fetch_attributes_to_own_source (net : network) (uids : list string)
  (vs : videoList) (err : option error) :
  Forall (fun uid => buildable uid = true) uids ->
  fetchBilibiliUserVideos net uids = Done (vs, err) ->
  forall v, In v vs ->
    exists i uid it,
      uids !! i = Some uid
      /\ sourceFailed (answer net i (requestOf uid)) = false
      /\ In it (Vlist (fst (answer net i (requestOf uid))))
      /\ v = toVideo uid it.
Proof.
  intros Hb. rewrite (fetch_buildable net uids Hb).
  assert (Hal : forall v, In v (sortByNewest (obtained net uids)) ->
    exists i uid it,
      uids !! i = Some uid
      /\ sourceFailed (answer net i (requestOf uid)) = false
      /\ In it (Vlist (fst (answer net i (requestOf uid))))
      /\ v = toVideo uid it).
  { intros v Hv. apply (Permutation_in _ (sortByNewest_perm _)) in Hv.
    now apply aligned_items. }
  destruct (poolErr net); [intros H; injection H as <- <-; contradiction|].
  destruct (length _ =? 0)%nat; [intros H; injection H as <- <-; contradiction|].
  destruct (0 <? _)%nat; intros H; injection H as <- <-; exact Hal.
Qed.

Lemma plain_app (a b : string) : plain (a +:+ b) = plain a && plain b.
Proof.
  induction a as [|c a IH]; [reflexivity|].
  rewrite append_cons. cbn [plain]. rewrite IH. apply andb_assoc.
Qed.

Lemma plain_cut (s : string) :
  plain s = true ->
  url.cutFragment s = (s, None) /\ url.stringContainsCTLByte s = false.
Proof.
  induction s as [|c s IH]; [auto|].
  cbn [plain url.cutFragment url.stringContainsCTLByte].
  unfold plainByte. rewrite !andb_true_iff, !negb_true_iff.
  intros [[Hctl Hhash] Hs]. destruct (IH Hs) as [Hcut Hno].
  rewrite Hhash, Hcut, Hctl, Hno. auto.
Qed.

Lemma digit_plain (c : ascii) : isDigit c = true -> plainByte c = true.
Proof.
  destruct c as [[] [] [] [] [] [] [] []]; vm_compute; congruence.
Qed.

Lemma digits_plain (s : string) : allDigits s = true -> plain s = true.
Proof.
  induction s as [|c s IH]; [reflexivity|].
  cbn [allDigits plain]. rewrite !andb_true_iff.
  intros [Hc Hs]. split; [now apply digit_plain|now apply IH].
Qed.

(** X8.  A request can be created for every UID made of decimal digits:
    for a list of such UIDs the request loop skips nothing and builds one
    request per UID, in order. *)
Theorem numeric_uids_all_requested (uids : list string) :
  Forall (fun uid => allDigits uid = true) uids ->
  Forall (fun uid => buildable uid = true) uids
  /\ buildRequests uids [] = map requestOf uids
  /\ length (buildRequests uids []) = length uids.
Proof.
  intros Hd.
  assert (Hb : Forall (fun uid => buildable uid = true) uids).
  { induction Hd as [|uid rest Huid _ IH]; constructor; [|exact IH].
    unfold buildable, url.parses, apiUrl.
    assert (Hp : plain ("https://api.bilibili.com/x/space/arc/search?mid="
                        +:+ uid +:+ "&ps=30&tid=0&pn=1&order=pubdate") = true).
    { rewrite !plain_app, (digits_plain uid Huid). reflexivity. }
    destruct (plain_cut _ Hp) as [-> ->]. reflexivity. }
  split; [exact Hb|].
  rewrite (buildRequests_buildable uids Hb), List.length_map. auto.
Qed.

(** ** Passes of [update] on an initialised widget *)

Lemma update_ready (isDevelopment : bool) (now : time.Time) (net : network)
  (widget : bilibiliWidget) :
  0 <= Limit widget ->
  cachedVideos widget <> None ->
  exists widget',
    update isDevelopment now net widget = Done widget'
    /\ sameConfig widget widget'
    /\ cachedVideos widget' <> None
    /\ (Videos widget' = Videos widget
        \/ listOk (Limit widget) (Videos widget')).
Proof.
  intros Hlimit Hcache.
  destruct (cachedVideos widget) as [m|] eqn:Hm; [clear Hcache|congruence].
  assert (Hmerged : forall cache allVideos,
    aggregate isDevelopment now net widget = Done (Merged (Some cache) allVideos) ->
    exists widget',
      update isDevelopment now net widget = Done widget'
      /\ sameConfig widget widget'
      /\ cachedVideos widget' <> None
      /\ (Videos widget' = Videos widget
          \/ listOk (Limit widget) (Videos widget'))).
  { intros cache allVideos Hagg. eexists.
    split; [apply (update_Merged _ _ _ _ _ _ Hagg Hlimit)|].
    split; [unfold sameConfig; cbn; auto 10|].
    split; [cbn; discriminate|].
    right. cbn [Videos withVideos]. split.
    - apply StronglySorted_take, sortByNewest_sorted.
    - rewrite length_take. lia. }
  destruct (aggregate_spec isDevelopment now net widget m Hm)
    as [(_ & Hagg)|[(_ & vs & err & _ & Hagg)|(_ & vs & m' & _ & Hagg & _)]].
  - exact (Hmerged _ _ Hagg).
  - eexists. split; [apply (update_Failed _ _ _ _ _ Hagg)|].
    split; [unfold sameConfig; cbn; auto 10|].
    split; [cbn; rewrite Hm; discriminate|].
    left. reflexivity.
  - exact (Hmerged _ _ Hagg).
Qed.

Lemma updates_ready (isDevelopment : bool) (passes : list (time.Time * network)) :
  forall widget,
    0 <= Limit widget ->
    cachedVideos widget <> None ->
    exists widget',
      updates isDevelopment passes widget = Done widget'
      /\ sameConfig widget widget'
      /\ cachedVideos widget' <> None
      /\ (listOk (Limit widget) (Videos widget) ->
          listOk (Limit widget) (Videos widget')).
Proof.
  induction passes as [|[now net] rest IH]; intros widget Hlimit Hcache.
  - exists widget. cbn [updates]. unfold sameConfig. auto 10.
  - destruct (update_ready isDevelopment now net widget Hlimit Hcache)
      as (w1 & Hup & Hcfg & Hc1 & Hvs).
    destruct Hcfg as (Hs & Hca & Hcr & Hu & Hi & Hl).
    destruct (IH w1) as (w2 & Hups & Hcfg2 & Hc2 & Hvs2);
      [rewrite Hl; exact Hlimit|exact Hc1|].
    destruct Hcfg2 as (Hs2 & Hca2 & Hcr2 & Hu2 & Hi2 & Hl2).
    exists w2. cbn [updates]. rewrite Hup. cbn [obind].
    split; [exact Hups|]. split; [|split; [exact Hc2|]].
    + unfold sameConfig. repeat split; congruence.
    + intros Hok. rewrite Hl in Hvs2. apply Hvs2.
      destruct Hvs as [->|Hok1]; assumption.
Qed.

(** X9.  After [initialize], no sequence of passes of [update] panics,
    whatever the mode, the clock readings and the network: every pass
    completes, the configuration (style, collapse settings, UPs, default
    interval, limit) stays as [initialize] left it and the cache map stays
    allocated. *)
Theorem updates_after_initialize_complete (isDevelopment : bool)
  (passes : list (time.Time * network)) (widget : bilibiliWidget) :
  exists widget',
    updates isDevelopment passes (fst (initialize widget)) = Done widget'
    /\ sameConfig (fst (initialize widget)) widget'
    /\ cachedVideos widget' <> None.
Proof.
  destruct (updates_ready isDevelopment passes (fst (initialize widget)))
    as (w' & Hups & Hcfg & Hc & _).
  - cbn. destruct (Z.leb_spec (Limit widget) 0); lia.
  - cbn. discriminate.
  - exists w'. auto.
Qed.

(** X10.  The video list stays newest first and within the limit: when
    a widget with an allocated cache and a limit that is not negative
    holds such a list, it holds such a list after any sequence of passes,
    those that return early included. *)
Theorem video_list_stays_sorted_and_limited (isDevelopment : bool)
  (passes : list (time.Time * network)) (widget : bilibiliWidget) :
  0 <= Limit widget ->
  cachedVideos widget <> None ->
  StronglySorted newerEq (Videos widget) ->
  Z.of_nat (length (Videos widget)) <= Limit widget ->
  exists widget',
    updates isDevelopment passes widget = Done widget'
    /\ StronglySorted newerEq (Videos widget')
    /\ Z.of_nat (length (Videos widget')) <= Limit widget'.
Proof.
  intros Hlimit Hcache Hsorted Hlen.
  destruct (updates_ready isDevelopment passes widget Hlimit Hcache)
    as (w' & Hups & Hcfg & _ & Hvs).
  destruct (Hvs (conj Hsorted Hlen)) as [Hs' Hl'].
  destruct Hcfg as (_ & _ & _ & _ & _ & HL).
  exists w'. rewrite HL. auto.
Qed.

Lemma filter_all {A : Type} (f : A -> bool) (l : list A) :
  (forall x, In x l -> f x = true) -> List.filter f l = l.
Proof.
  induction l as [|x l IH]; intros Hall; [reflexivity|].
  cbn [List.filter]. rewrite (Hall x) by (now left).
  f_equal. apply IH. intros y Hy. apply Hall. now right.
Qed.

Lemma stale_without_map (isDevelopment : bool) (now : time.Time)
  (widget : bilibiliWidget) :
  cachedVideos widget = None ->
  staleSources isDevelopment now widget = (map UID (UPs widget), []).
Proof.
  intros Hnil. rewrite staleSources_spec. destruct isDevelopment; [reflexivity|].
  rewrite Hnil.
  rewrite filter_all by reflexivity.
  rewrite filter_none by reflexivity. reflexivity.
Qed.

(** X11.  On a widget whose cache map was never allocated, every
    configured source counts as stale, and a pass panics exactly when the
    fetcher succeeds: the first cache write is an assignment to an entry
    of a nil map.  When the fetcher returns an error the pass returns
    early, without a panic. *)
Theorem update_without_map (isDevelopment : bool) (now : time.Time)
  (net : network) (widget : bilibiliWidget) :
  cachedVideos widget = None ->
  UPs widget <> [] ->
  fst (staleSources isDevelopment now widget) = map UID (UPs widget)
  /\ (forall vs,
        fetchBilibiliUserVideos net (map UID (UPs widget)) = Done (vs, None) ->
        update isDevelopment now net widget = Panic)
  /\ (forall vs err,
        fetchBilibiliUserVideos net (map UID (UPs widget))
          = Done (vs, Some err) ->
        update isDevelopment now net widget
          = Done (withError widget (Some (ErrFetchFailed err)))).
Proof.
  intros Hnil Hups.
  pose proof (stale_without_map isDevelopment now widget Hnil) as Hstale.
  split; [now rewrite Hstale|].
  destruct (UPs widget) as [|up rest] eqn:HUPs; [congruence|].
  split.
  - intros vs Hfetch. unfold update, aggregate.
    rewrite Hstale. cbn [map length Nat.ltb Nat.leb].
    cbn [map] in Hfetch. rewrite Hfetch. cbn [obind].
    rewrite Hnil, HUPs. cbn [refreshCache contains].
    rewrite String.eqb_refl. reflexivity.
  - intros vs err Hfetch. apply update_Failed.
    apply (aggregate_fetch_error _ _ _ _ vs); rewrite Hstale; cbn [fst].
    + discriminate.
    + exact Hfetch.
Qed.

(** X12.  With a negative limit, every pass that reaches the merge panics
    (the slice expression [allVideos[:Limit]] is out of bounds), whatever
    was merged, while a pass that returns early does not. *)
Theorem update_negative_limit (isDevelopment : bool) (now : time.Time)
  (net : network) (widget : bilibiliWidget) :
  Limit widget < 0 ->
  (forall cache allVideos,
      aggregate isDevelopment now net widget = Done (Merged cache allVideos) ->
      update isDevelopment now net widget = Panic)
  /\ (forall err,
        aggregate isDevelopment now net widget = Done (Failed err) ->
        update isDevelopment now net widget
          = Done (withError widget (Some (ErrFetchFailed err)))).
Proof.
  intros Hneg. split.
  - intros cache allVideos Hagg. unfold update. rewrite Hagg. cbn [obind].
    now rewrite sortAndLimit_negative.
  - intros err Hagg. now apply update_Failed.
Qed.

(** ** What a pass does to the cache *)

Lemma refreshCache_keeps_keys (isDevelopment : bool) (now : time.Time)
  (widget : bilibiliWidget) (needUpdate : list string) (newVideos : videoList)
  (ups : list bilibiliUPConfig) :
  forall (m m' : gmap string cacheEntry) (allVideos allVideos' : videoList),
    refreshCache isDevelopment now widget needUpdate newVideos ups (Some m)
      allVideos = Done (Some m', allVideos') ->
    forall uid, is_Some (m !! uid) -> is_Some (m' !! uid).
Proof.
  induction ups as [|up rest IH]; intros m m' allVideos allVideos' Heq uid Hsome.
  - cbn in Heq. congruence.
  - cbn [refreshCache] in Heq.
    destruct (contains needUpdate (UID up)); cbn [negb mapPut obind] in Heq.
    + apply (IH _ _ _ _ Heq). rewrite lookup_insert_is_Some.
      destruct (decide (UID up = uid)); auto.
    + now apply (IH _ _ _ _ Heq).
Qed.

Lemma update_cache_cases (isDevelopment : bool) (now : time.Time)
  (net : network) (widget widget' : bilibiliWidget)
  (m : gmap string cacheEntry) :
  cachedVideos widget = Some m ->
  update isDevelopment now net widget = Done widget' ->
  cachedVideos widget' = Some m
  \/ exists newVideos m' allVideos,
       refreshCache isDevelopment now widget
         (fst (staleSources isDevelopment now widget)) newVideos (UPs widget)
         (Some m) (snd (staleSources isDevelopment now widget))
       = Done (Some m', allVideos)
       /\ cachedVideos widget' = Some m'.
Proof.
  intros Hm. unfold update, aggregate.
  destruct (staleSources isDevelopment now widget) as [needUpdate cached].
  cbn [fst snd].
  destruct needUpdate as [|uid rest].
  - cbn [length Nat.ltb Nat.leb obind].
    destruct (sortAndLimit _ _); cbn [obind]; [|discriminate].
    intros H. injection H as <-. left. exact Hm.
  - cbn [length Nat.ltb Nat.leb].
    destruct (fetchBilibiliUserVideos net (uid :: rest)) as [[vs [err|]]|];
      cbn [obind]; [| |discriminate].
    + intros H. injection H as <-. left. exact Hm.
    + rewrite Hm.
      destruct (refreshCache_spec isDevelopment now widget (uid :: rest) vs
                  (UPs widget) m cached) as (m' & Heq & _).
      rewrite Heq. cbn [obind fst snd].
      destruct (sortAndLimit _ _); cbn [obind]; [|discriminate].
      intros H. injection H as <-. right. exists vs, m'. eauto.
Qed.

(** X13.  A pass never deletes a cache entry and writes only entries of
    sources it found stale: every UID that had an entry before the pass
    has one after it, and the entry of every UID outside [needUpdate],
    configured or not, is the same after the pass as before. *)
Theorem cache_only_grows (isDevelopment : bool) (now : time.Time)
  (net : network) (widget widget' : bilibiliWidget)
  (m : gmap string cacheEntry) :
  cachedVideos widget = Some m ->
  update isDevelopment now net widget = Done widget' ->
  exists m',
    cachedVideos widget' = Some m'
    /\ (forall uid, is_Some (m !! uid) -> is_Some (m' !! uid))
    /\ (forall uid,
          ~ In uid (fst (staleSources isDevelopment now widget)) ->
          m' !! uid = m !! uid)
    /\ (forall uid,
          m' !! uid <> m !! uid -> In uid (map UID (UPs widget))).
Proof.
  intros Hm Hup.
  assert (Hconf : forall (m' : gmap string cacheEntry),
    (forall uid, ~ In uid (fst (staleSources isDevelopment now widget)) ->
                 m' !! uid = m !! uid) ->
    forall uid, m' !! uid <> m !! uid -> In uid (map UID (UPs widget))).
  { intros m' Hframe uid Hdiff.
    destruct (in_dec string_dec uid (fst (staleSources isDevelopment now widget)))
      as [Hin|Hnot].
    - now apply needUpdate_In in Hin as [Hin _].
    - exfalso. apply Hdiff. now apply Hframe. }
  destruct (update_cache_cases _ _ _ _ _ _ Hm Hup)
    as [Hsame|(newVideos & m' & allVideos & Heq & Hc)].
  - exists m. split; [exact Hsame|]. split; [auto|]. split; [auto|].
    intros uid Hdiff. congruence.
  - exists m'. split; [exact Hc|].
    split; [exact (refreshCache_keeps_keys _ _ _ _ _ _ _ _ _ _ Heq)|].
    assert (Hframe : forall uid,
      ~ In uid (fst (staleSources isDevelopment now widget)) ->
      m' !! uid = m !! uid).
    { destruct (refreshCache_spec isDevelopment now widget
                  (fst (staleSources isDevelopment now widget)) newVideos
                  (UPs widget) m (snd (staleSources isDevelopment now widget)))
        as (m2 & Heq2 & Hframe).
      rewrite Heq in Heq2. injection Heq2 as -> _. exact Hframe. }
    split; [exact Hframe|exact (Hconf m' Hframe)].
Qed.

Lemma update_Merged_inv (isDevelopment : bool) (now : time.Time) (net : network)
  (widget widget' : bilibiliWidget) (cache : option (gmap string cacheEntry))
  (allVideos : videoList) :
  aggregate isDevelopment now net widget = Done (Merged cache allVideos) ->
  update isDevelopment now net widget = Done widget' ->
  0 <= Limit widget
  /\ widget' = withVideos (withCache widget cache)
                 (take (Z.to_nat (Limit widget)) (sortByNewest allVideos)).
Proof.
  intros Hagg Hup.
  destruct (Z.lt_ge_cases (Limit widget) 0) as [Hneg|Hpos].
  - unfold update in Hup. rewrite Hagg in Hup. cbn [obind] in Hup.
    rewrite sortAndLimit_negative in Hup by assumption. discriminate.
  - split; [assumption|].
    rewrite (update_Merged _ _ _ _ _ _ Hagg Hpos) in Hup. congruence.
Qed.

(** X14.  In normal mode a source refreshed by a pass at time [now] is
    not fetched again before its entry expires: it has a configured UP
    whose cache duration is positive, and at every later check up to and
    including [now] plus that duration it is not in [needUpdate]. *)
Theorem refreshed_source_fresh_until_expiry (now : time.Time) (net : network)
  (widget widget' : bilibiliWidget) (cache : option (gmap string cacheEntry))
  (allVideos : videoList) :
  aggregate false now net widget = Done (Merged cache allVideos) ->
  update false now net widget = Done widget' ->
  forall uid, In uid (fst (staleSources false now widget)) ->
    exists up,
      In up (UPs widget) /\ UID up = uid
      /\ 0 < cacheDuration false widget up
      /\ forall now',
           now' <= now + cacheDuration false widget up ->
           ~ In uid (fst (staleSources false now' widget')).
Proof.
  intros Hagg Hup uid Hneed.
  destruct (update_Merged_inv _ _ _ _ _ _ _ Hagg Hup) as [_ ->].
  destruct (aggregate_entries _ _ _ _ _ _ Hagg uid Hneed)
    as (up & newVideos & Hin & Huid & Hget).
  exists up. split; [exact Hin|]. split; [exact Huid|].
  assert (Hpos : 0 < cacheDuration false widget up).
  { rewrite cacheDuration_order.
    destruct (Z.ltb_spec 0 (Cache up)); [assumption|].
    destruct (Z.ltb_spec 0 (UpdateInterval widget)); [assumption|lia]. }
  split; [exact Hpos|].
  intros now' Hnow' Hstale.
  apply needUpdate_In in Hstale as [_ [Hdev|Hexp]]; [discriminate|].
  unfold expired in Hexp. cbn [cachedVideos withVideos withCache] in Hexp.
  rewrite Hget in Hexp. cbn [expireAt] in Hexp.
  unfold time.After, time.Add in Hexp. apply Z.ltb_lt in Hexp. lia.
Qed.

(** X15.  After a pass that reaches the merge, every configured source
    has a cache entry, in either mode. *)
Theorem merged_pass_caches_every_source (isDevelopment : bool)
  (now : time.Time) (net : network) (widget : bilibiliWidget)
  (cache : option (gmap string cacheEntry)) (allVideos : videoList) :
  aggregate isDevelopment now net widget = Done (Merged cache allVideos) ->
  forall up, In up (UPs widget) -> is_Some (mapGet cache (UID up)).
Proof.
  intros Hagg up Hin.
  destruct (in_dec string_dec (UID up)
              (fst (staleSources isDevelopment now widget))) as [Hneed|Hfresh].
  - destruct (aggregate_entries _ _ _ _ _ _ Hagg (UID up) Hneed)
      as (up' & newVideos & _ & _ & Hget).
    rewrite Hget. eauto.
  - assert (Hexp : expired now (cachedVideos widget) (UID up) = false).
    { destruct (expired now (cachedVideos widget) (UID up)) eqn:He; [|reflexivity].
      exfalso. apply Hfresh. apply needUpdate_In.
      split; [now apply in_map|auto]. }
    unfold expired in Hexp.
    destruct (cachedVideos widget) as [m|] eqn:Hm; [|discriminate].
    cbn [mapGet] in Hexp.
    destruct (m !! UID up) as [entry|] eqn:Hget; [|discriminate].
    destruct (aggregate_spec isDevelopment now net widget m Hm)
      as [(_ & Hagg')|[(_ & vs & err & _ & Hagg')
                      |(_ & vs & m' & _ & Hagg' & Hframe)]];
      rewrite Hagg in Hagg'; [| discriminate |].
    + assert (cache = Some m) by congruence. subst cache.
      cbn [mapGet]. rewrite Hget. eauto.
    + assert (cache = Some m') by congruence. subst cache.
      cbn [mapGet]. rewrite (Hframe _ Hfresh), Hget. eauto.
Qed.

(** ** The merge and the limit *)

(** X16.  The limit keeps the newest videos.  In a pass that reaches the
    merge with a limit that is not negative, the widget's list together
    with the videos that were cut off is a rearrangement of the merged
    list, no video that was cut off is newer than one that was kept, the
    list is newest first, and it has as many videos as the merged list
    or as the limit, whichever is smaller. *)
Theorem limit_keeps_the_newest (isDevelopment : bool) (now : time.Time)
  (net : network) (widget : bilibiliWidget)
  (cache : option (gmap string cacheEntry)) (allVideos : videoList) :
  0 <= Limit widget ->
  aggregate isDevelopment now net widget = Done (Merged cache allVideos) ->
  exists widget' dropped,
    update isDevelopment now net widget = Done widget'
    /\ Permutation (Videos widget' ++ dropped) allVideos
    /\ (forall kept cut,
          In kept (Videos widget') -> In cut dropped ->
          TimePosted cut <= TimePosted kept)
    /\ StronglySorted newerEq (Videos widget')
    /\ length (Videos widget')
       = Nat.min (Z.to_nat (Limit widget)) (length allVideos).
Proof.
  intros Hlimit Hagg.
  eexists. exists (drop (Z.to_nat (Limit widget)) (sortByNewest allVideos)).
  split; [apply (update_Merged _ _ _ _ _ _ Hagg Hlimit)|].
  cbn [Videos withVideos].
  split; [rewrite take_drop; apply sortByNewest_perm|].
  split; [|split].
  - intros kept cut Hk Hc.
    pose proof (sortByNewest_sorted allVideos) as Hs.
    rewrite <- (take_drop (Z.to_nat (Limit widget)) (sortByNewest allVideos)) in Hs.
    apply (StronglySorted_app_1_elem_of newerEq _ _ kept cut Hs);
      now apply list_elem_of_In.
  - apply StronglySorted_take, sortByNewest_sorted.
  - now rewrite length_take, sortByNewest_length.
Qed.

(** X17.  A widget without UPs never calls the fetcher: a pass leaves
    the cache and the error as they were and the video list empty, and
    [Render], finding no video after its forced pass, sets the error
    that says no video data could be had. *)
Theorem no_UPs_no_videos (isDevelopment : bool) (now : time.Time)
  (net : network) (widget : bilibiliWidget) :
  UPs widget = [] ->
  0 <= Limit widget ->
  (exists widget',
      update isDevelopment now net widget = Done widget'
      /\ Videos widget' = []
      /\ cachedVideos widget' = cachedVideos widget
      /\ Error widget' = Error widget)
  /\ (Videos widget = [] ->
      exists widget',
        Render isDevelopment now net widget = Done widget'
        /\ Videos widget' = []
        /\ cachedVideos widget' = cachedVideos widget
        /\ Error widget' = Some ErrNoVideoData).
Proof.
  intros Hups Hlimit.
  assert (Hagg : aggregate isDevelopment now net widget
                 = Done (Merged (cachedVideos widget) [])).
  { unfold aggregate. rewrite staleSources_spec, Hups.
    destruct isDevelopment; reflexivity. }
  pose proof (update_Merged _ _ _ _ _ _ Hagg Hlimit) as Hup.
  assert (Hnil : take (Z.to_nat (Limit widget)) (sortByNewest []) = []).
  { now destruct (Z.to_nat (Limit widget)). }
  rewrite Hnil in Hup.
  split.
  - eexists. split; [exact Hup|]. cbn. auto.
  - intros Hvs. unfold Render. rewrite Hvs. cbn [length Nat.eqb].
    rewrite Hup. cbn [obind Videos withVideos length Nat.eqb].
    eexists. split; [reflexivity|]. cbn. auto.
Qed.

(** ** [Render] *)

Lemma update_Error_cases (isDevelopment : bool) (now : time.Time)
  (net : network) (widget widget' : bilibiliWidget) :
  update isDevelopment now net widget = Done widget' ->
  (Error widget' = Error widget
   /\ exists cache allVideos,
        aggregate isDevelopment now net widget = Done (Merged cache allVideos))
  \/ (exists err,
        aggregate isDevelopment now net widget = Done (Failed err)
        /\ widget' = withError widget (Some (ErrFetchFailed err))).
Proof.
  unfold update.
  destruct (aggregate isDevelopment now net widget) as [[err|cache allVideos]|];
    cbn [obind]; [| |discriminate].
  - intros H. injection H as <-. right. eauto.
  - destruct (sortAndLimit (Limit widget) allVideos) as [vs|];
      cbn [obind]; [|discriminate].
    intros H. injection H as <-. left. split; [reflexivity|eauto].
Qed.

(** X18.  [Render] leaves a widget that has videos exactly as it is,
    without a pass.  When it returns a widget without videos, that widget
    carries the no-video-data error: after a forced pass that returned
    early, the fetcher's own error is replaced by it.  And [Render] never
    resets an error to nil. *)
Theorem Render_effect (isDevelopment : bool) (now : time.Time) (net : network)
  (widget widget' : bilibiliWidget) :
  Render isDevelopment now net widget = Done widget' ->
  (Videos widget <> [] -> widget' = widget)
  /\ (Videos widget' = [] -> Error widget' = Some ErrNoVideoData)
  /\ (Error widget <> None -> Error widget' <> None)
  /\ (forall err,
        Videos widget = [] ->
        aggregate isDevelopment now net widget = Done (Failed err) ->
        Videos widget' = [] /\ Error widget' = Some ErrNoVideoData).
Proof.
  unfold Render.
  destruct (Videos widget) as [|v vs] eqn:Hvs; cbn [length Nat.eqb].
  - destruct (update isDevelopment now net widget) as [w1|] eqn:Hup;
      cbn [obind]; [|discriminate].
    destruct (length (Videos w1) =? 0)%nat eqn:Hlen;
      intros H; injection H as <-.
    + apply length_zero_iff in Hlen.
      split; [congruence|]. split; [reflexivity|].
      split; [cbn; discriminate|]. intros err _ _. cbn. auto.
    + assert (Hne : Videos w1 <> []).
      { intros Hnil. rewrite Hnil in Hlen. discriminate. }
      split; [congruence|]. split; [contradiction|].
      destruct (update_Error_cases _ _ _ _ _ Hup)
        as [[He _]|(err & Hagg & ->)].
      * split; [congruence|]. intros err _ Hagg.
        exfalso. destruct (update_Error_cases _ _ _ _ _ Hup)
          as [[_ (c & a & Hm)]|(e & Hf & ->)]; [congruence|].
        apply Hne. exact Hvs.
      * exfalso. apply Hne. exact Hvs.
  - intros H. injection H as <-.
    split; [reflexivity|]. split; [congruence|].
    split; [auto|]. intros err Hnil. discriminate.
Qed.

(** ** More on the delayed HTTP client *)

Lemma Do_issue_time {R : Type}
  (transport : http.Request -> option R * option error)
  (c : delayed.delayedHTTPClient) (clock : time.Time) (p : delayed.pace)
  (req : http.Request) :
  delayed.pace_ok p ->
  delayed.lastReq c <= clock ->
  delayed.delay c <= time.maxDuration ->
  delayed.Do transport c clock p req
  = (delayed.mkClient (delayed.delay c)
       ((if clock + delayed.arrive p - delayed.lastReq c <? delayed.delay c
         then delayed.lastReq c + delayed.delay c + delayed.oversleep p
         else clock + delayed.arrive p) + delayed.lag p),
     (if clock + delayed.arrive p - delayed.lastReq c <? delayed.delay c
      then delayed.lastReq c + delayed.delay c + delayed.oversleep p
      else clock + delayed.arrive p) + delayed.lag p,
     delayed.passOn (transport req)).
Proof.
  intros (Ha & Ho & Hl) Hclk Hmax.
  unfold delayed.Do. cbv zeta.
  set (elapsed := time.Sub (clock + delayed.arrive p) (delayed.lastReq c)).
  assert (Hel : elapsed = clock + delayed.arrive p - delayed.lastReq c
                \/ (elapsed = time.maxDuration
                    /\ time.maxDuration
                       <= clock + delayed.arrive p - delayed.lastReq c)).
  { unfold elapsed, time.Sub, time.maxDuration, time.minDuration.
    change (2 ^ 63) with 9223372036854775808. lia. }
  clearbody elapsed.
  assert (Ht :
    (if elapsed <? delayed.delay c
     then clock + delayed.arrive p
          + delayed.Sleep (wrap64 (delayed.delay c - elapsed))
              (delayed.oversleep p)
     else clock + delayed.arrive p)
    = (if clock + delayed.arrive p - delayed.lastReq c <? delayed.delay c
       then delayed.lastReq c + delayed.delay c + delayed.oversleep p
       else clock + delayed.arrive p)).
  { unfold time.maxDuration in *.
    change (2 ^ 63) with 9223372036854775808 in *.
    destruct (Z.ltb_spec elapsed (delayed.delay c)) as [Hlt|Hge];
      destruct (Z.ltb_spec (clock + delayed.arrive p - delayed.lastReq c)
                  (delayed.delay c)) as [Hlt'|Hge']; try lia.
    destruct Hel as [Hel|[Hel _]]; [subst elapsed|lia].
    unfold delayed.Sleep, wrap64.
    change (2 ^ 63) with 9223372036854775808.
    change (2 ^ 64) with 18446744073709551616.
    rewrite Z.mod_small by lia.
    destruct (Z.leb_spec
      (delayed.delay c - (clock + delayed.arrive p - delayed.lastReq c)
       + 9223372036854775808 - 9223372036854775808) 0); lia. }
  rewrite Ht. reflexivity.
Qed.

(** X19.  When a call of [Do] reads the clock less than the delay after
    the last request, the request is issued at the last request's time
    plus the delay, apart from what the sleep overshoots and the time
    until [time.Now] is read; otherwise it is issued without any wait.
    So [Do] never holds a request back longer than the delay, and not at
    all when the delay has already passed. *)
Theorem Do_waits_only_as_needed {R : Type}
  (transport : http.Request -> option R * option error)
  (c : delayed.delayedHTTPClient) (clock : time.Time) (p : delayed.pace)
  (req : http.Request) :
  delayed.pace_ok p ->
  delayed.lastReq c <= clock ->
  delayed.delay c <= time.maxDuration ->
  exists t,
    delayed.Do transport c clock p req
    = (delayed.mkClient (delayed.delay c) t, t, delayed.passOn (transport req))
    /\ (clock + delayed.arrive p - delayed.lastReq c < delayed.delay c ->
        t = delayed.lastReq c + delayed.delay c
            + delayed.oversleep p + delayed.lag p)
    /\ (delayed.delay c <= clock + delayed.arrive p - delayed.lastReq c ->
        t = clock + delayed.arrive p + delayed.lag p)
    /\ t - (clock + delayed.arrive p)
       <= Z.max 0 (delayed.delay c) + delayed.oversleep p + delayed.lag p.
Proof.
  intros Hp Hclk Hmax.
  eexists. split; [apply (Do_issue_time transport c clock p req Hp Hclk Hmax)|].
  destruct Hp as (Ha & Ho & Hl).
  destruct (Z.ltb_spec (clock + delayed.arrive p - delayed.lastReq c)
              (delayed.delay c)); repeat split; intros; lia.
Qed.

(** X20.  The first request of a client that has never sent one (its
    last-request time is the zero time) is issued without a wait, at any
    clock reading from 1970 on. *)
Theorem first_request_not_delayed {R : Type}
  (transport : http.Request -> option R * option error)
  (c : delayed.delayedHTTPClient) (clock : time.Time) (p : delayed.pace)
  (req : http.Request) :
  delayed.pace_ok p ->
  delayed.lastReq c = delayed.zeroTime ->
  0 <= clock ->
  delayed.delay c <= time.maxDuration ->
  delayed.Do transport c clock p req
  = (delayed.mkClient (delayed.delay c)
       (clock + delayed.arrive p + delayed.lag p),
     clock + delayed.arrive p + delayed.lag p,
     delayed.passOn (transport req)).
Proof.
  intros Hp Hzero Hclock Hmax.
  assert (Hz : delayed.zeroTime = -62135596800000000000).
  { vm_compute. reflexivity. }
  rewrite (Do_issue_time transport c clock p req Hp); [|lia|assumption].
  destruct Hp as (Ha & Ho & Hl).
  unfold time.maxDuration in Hmax.
  change (2 ^ 63) with 9223372036854775808 in Hmax.
  destruct (Z.ltb_spec (clock + delayed.arrive p - delayed.lastReq c)
              (delayed.delay c)); [lia|reflexivity].
Qed.

(** X21.  Requests issued one after the other are spread out in
    proportion to their number: between the request at position [i] and
    the request at a later position [j] at least [j - i] times the delay
    passes. *)
Theorem DoAll_total_spacing {R : Type}
  (transport : http.Request -> option R * option error)
  (c : delayed.delayedHTTPClient) (clock : time.Time)
  (calls : list (delayed.pace * http.Request)) :
  Forall (fun call => delayed.pace_ok (fst call)) calls ->
  delayed.lastReq c <= clock ->
  delayed.delay c <= time.maxDuration ->
  forall (d i : nat) (t t' : time.Time),
    (delayed.lastReq c :: delayed.DoAll transport c clock calls) !! i = Some t ->
    (delayed.lastReq c :: delayed.DoAll transport c clock calls) !! (i + d)%nat
      = Some t' ->
    Z.of_nat d * delayed.delay c <= t' - t.
Proof.
  intros Hok Hclk Hmax.
  induction d as [|d IH]; intros i t t' Hi Hj.
  - rewrite Nat.add_0_r in Hj. assert (t' = t) by congruence. lia.
  - destruct (lookup_lt_is_Some_2
                (delayed.lastReq c :: delayed.DoAll transport c clock calls)
                (i + d)) as [t'' Hmid].
    { apply lookup_lt_Some in Hj. lia. }
    pose proof (IH i t t'' Hi Hmid) as Hfar.
    replace (i + S d)%nat with (S (i + d)) in Hj by lia.
    pose proof (delayed_facts.DoAll_spacing transport calls c clock Hok Hclk
                  Hmax (i + d)%nat t'' t' Hmid Hj) as Hstep.
    lia.
Qed.

(** ** The join of fetched videos and UPs *)

Lemma string_app_assoc (a b c : string) : (a +:+ b) +:+ c = a +:+ (b +:+ c).
Proof.
  induction a as [|x a IH]; [reflexivity|].
  rewrite !append_cons, IH. reflexivity.
Qed.

Lemma authorUrl_inj (u x : string) : authorUrl u = authorUrl x -> u = x.
Proof. unfold authorUrl. apply (inj (String.append _)). Qed.

(** X22.  For UIDs without a slash the suffix test is an exact join:
    out of videos whose author URLs are the space URLs of slash-free
    UIDs, a UP with a slash-free UID is given exactly the videos whose
    author URL is the space URL of its own UID, in their order. *)
Theorem suffix_join_exact (newVideos : videoList) (up : bilibiliUPConfig) :
  hasSlash (UID up) = false ->
  (forall v, In v newVideos ->
     exists uid, hasSlash uid = false /\ AuthorUrl v = authorUrl uid) ->
  upVideosOf newVideos up
  = List.filter (fun v => String.eqb (AuthorUrl v) (authorUrl (UID up)))
      newVideos.
Proof.
  intros Hup Hvs. unfold upVideosOf.
  apply List.filter_ext_in. intros v Hv.
  destruct (Hvs v Hv) as (uid & Huid & ->).
  rewrite (author_suffix_eqb uid (UID up) Huid Hup).
  destruct (String.eqb_spec (UID up) uid) as [->|Hne].
  - symmetry. apply String.eqb_refl.
  - symmetry. apply String.eqb_neq. intros Heq.
    apply Hne. symmetry. now apply authorUrl_inj.
Qed.

(** X23.  The suffix test also matches across UIDs: a video attributed
    to a UID of the form [p/x] passes the test of the UP with UID [x] as
    well as that of the UP with UID [p/x], so both are given it. *)
Theorem suffix_join_overlap (newVideos : videoList) (up up' : bilibiliUPConfig)
  (p : string) (v : video) :
  UID up' = p +:+ "/" +:+ UID up ->
  AuthorUrl v = authorUrl (UID up') ->
  In v newVideos ->
  In v (upVideosOf newVideos up) /\ In v (upVideosOf newVideos up').
Proof.
  intros Huid Hurl Hin. unfold upVideosOf.
  split; apply filter_In; (split; [exact Hin|]); apply HasSuffix_iff; rewrite Hurl.
  - exists ("https://space.bilibili.com/" +:+ p).
    rewrite Huid. unfold authorUrl. now rewrite string_app_assoc.
  - exists "https://space.bilibili.com". reflexivity.
Qed.

(** ** More on [initialize] *)

(** X24.  Initialising twice gives the same widget as initialising once,
    and after [initialize] both collapse settings are either -1 or
    positive. *)
Theorem initialize_idempotent (widget : bilibiliWidget) :
  fst (initialize (fst (initialize widget))) = fst (initialize widget)
  /\ (CollapseAfter (fst (initialize widget)) = -1
      \/ 0 < CollapseAfter (fst (initialize widget)))
  /\ (CollapseAfterRows (fst (initialize widget)) = -1
      \/ 0 < CollapseAfterRows (fst (initialize widget))).
Proof.
  cbn [initialize fst Limit CollapseAfter CollapseAfterRows Videos Style UPs
       UpdateInterval Error].
  split; [|split].
  - f_equal.
    + destruct (Z.eqb_spec (CollapseAfter widget) 0);
        [reflexivity|].
      destruct (Z.ltb_spec (CollapseAfter widget) (-1)); [reflexivity|].
      cbn [orb].
      destruct (Z.eqb_spec (CollapseAfter widget) 0); [lia|].
      destruct (Z.ltb_spec (CollapseAfter widget) (-1)); [lia|reflexivity].
    + destruct (Z.eqb_spec (CollapseAfterRows widget) 0);
        [reflexivity|].
      destruct (Z.ltb_spec (CollapseAfterRows widget) (-1)); [reflexivity|].
      cbn [orb].
      destruct (Z.eqb_spec (CollapseAfterRows widget) 0); [lia|].
      destruct (Z.ltb_spec (CollapseAfterRows widget) (-1)); [lia|reflexivity].
    + destruct (Z.leb_spec (Limit widget) 0); [reflexivity|].
      destruct (Z.leb_spec (Limit widget) 0); [lia|reflexivity].
  - destruct (Z.eqb_spec (CollapseAfter widget) 0); [right; cbn; lia|].
    destruct (Z.ltb_spec (CollapseAfter widget) (-1)); cbn [orb]; lia.
  - destruct (Z.eqb_spec (CollapseAfterRows widget) 0); [right; cbn; lia|].
    destruct (Z.ltb_spec (CollapseAfterRows widget) (-1)); cbn [orb]; lia.
Qed.

(** ** The order of [needUpdate] and a pass that needs no network *)

Lemma sublist_map_filter {A B : Type} (f : A -> B) (g : A -> bool) (l : list A) :
  sublist (map f (List.filter g l)) (map f l).
Proof.
  induction l as [|x l IH]; [constructor|].
  cbn [List.filter map]. destruct (g x); cbn [map]; now constructor.
Qed.

(** X25.  [needUpdate] lists stale UIDs in the order of the
    configuration and takes each position of the configuration at most
    once: it is a subsequence of the configured UIDs, so it is no longer
    than the configuration, and when the configured UIDs are pairwise
    distinct no source is requested twice in a pass. *)
Theorem needUpdate_follows_configuration (isDevelopment : bool)
  (now : time.Time) (widget : bilibiliWidget) :
  sublist (fst (staleSources isDevelopment now widget)) (map UID (UPs widget))
  /\ (length (fst (staleSources isDevelopment now widget))
      <= length (UPs widget))%nat
  /\ (NoDup (map UID (UPs widget)) ->
      NoDup (fst (staleSources isDevelopment now widget))).
Proof.
  assert (Hsub : sublist (fst (staleSources isDevelopment now widget))
                   (map UID (UPs widget))).
  { rewrite staleSources_spec. destruct isDevelopment; cbn [fst].
    - reflexivity.
    - apply sublist_map_filter. }
  split; [exact Hsub|]. split.
  - apply sublist_length in Hsub. now rewrite List.length_map in Hsub.
  - intros Hnd. exact (sublist_NoDup _ _ Hnd Hsub).
Qed.

Lemma update_without_stale (isDevelopment : bool) (now : time.Time)
  (net : network) (widget : bilibiliWidget) :
  fst (staleSources isDevelopment now widget) = [] ->
  update isDevelopment now net widget
  = let* allVideos :=
      sortAndLimit (Limit widget) (snd (staleSources isDevelopment now widget)) in
    Done (withVideos (withCache widget (cachedVideos widget)) allVideos).
Proof.
  intros Hnil. unfold update, aggregate.
  destruct (staleSources isDevelopment now widget) as [needUpdate cached].
  cbn [fst snd] in *. subst needUpdate. reflexivity.
Qed.

(** X26.  In normal mode a pass that reached the merge leaves nothing
    stale at the same clock reading: a second pass at that reading finds
    [needUpdate] empty, so what it does is the same whatever the network
    would answer, and it leaves the cache as the first pass left it. *)
Theorem second_pass_needs_no_network (now : time.Time) (net : network)
  (widget widget' : bilibiliWidget) (cache : option (gmap string cacheEntry))
  (allVideos : videoList) :
  aggregate false now net widget = Done (Merged cache allVideos) ->
  update false now net widget = Done widget' ->
  fst (staleSources false now widget') = []
  /\ (forall net1 net2,
        update false now net1 widget' = update false now net2 widget')
  /\ (forall net1 widget'',
        update false now net1 widget' = Done widget'' ->
        cachedVideos widget'' = cachedVideos widget').
Proof.
  intros Hagg Hup.
  assert (Hnil : fst (staleSources false now widget') = []).
  { destruct (fst (staleSources false now widget')) as [|uid rest] eqn:Hstale;
      [reflexivity|exfalso].
    assert (Hin : In uid (fst (staleSources false now widget'))).
    { rewrite Hstale. now left. }
    destruct (update_Merged_inv _ _ _ _ _ _ _ Hagg Hup) as [_ Hw'].
    apply needUpdate_In in Hin as [Hconf [Hdev|Hexp]]; [discriminate|].
    rewrite Hw' in Hconf, Hexp.
    cbn [UPs cachedVideos withVideos withCache] in Hconf, Hexp.
    destruct (in_dec string_dec uid (fst (staleSources false now widget)))
      as [Hneed|Hfresh].
    - destruct (aggregate_entries _ _ _ _ _ _ Hagg uid Hneed)
        as (up & newVideos & _ & _ & Hget).
      unfold expired in Hexp. rewrite Hget in Hexp. cbn [expireAt] in Hexp.
      unfold time.After, time.Add in Hexp. apply Z.ltb_lt in Hexp.
      assert (0 < cacheDuration false widget up).
      { rewrite cacheDuration_order.
        destruct (Z.ltb_spec 0 (Cache up)); [assumption|].
        destruct (Z.ltb_spec 0 (UpdateInterval widget)); [assumption|lia]. }
      lia.
    - assert (Hold : expired now (cachedVideos widget) uid = false).
      { destruct (expired now (cachedVideos widget) uid) eqn:He; [|reflexivity].
        exfalso. apply Hfresh. apply needUpdate_In. auto. }
      assert (Hsame : mapGet cache uid = mapGet (cachedVideos widget) uid).
      { unfold expired in Hold.
        destruct (cachedVideos widget) as [m|] eqn:Hm; [|discriminate].
        destruct (aggregate_spec false now net widget m Hm)
          as [(_ & Hagg')|[(_ & vs & err & _ & Hagg')
                          |(_ & vs & m' & _ & Hagg' & Hframe)]];
          rewrite Hagg in Hagg'; [| discriminate |].
        - assert (cache = Some m) by congruence. now subst cache.
        - assert (cache = Some m') by congruence. subst cache.
          cbn [mapGet]. now apply Hframe. }
      unfold expired in Hexp, Hold. rewrite Hsame in Hexp. congruence. }
  split; [exact Hnil|]. split.
  - intros net1 net2. now rewrite !update_without_stale.
  - intros net1 widget'' Hup2. rewrite update_without_stale in Hup2 by assumption.
    destruct (sortAndLimit _ _); cbn [obind] in Hup2; [|discriminate].
    injection Hup2 as <-. reflexivity.
Qed.

(** * The further properties at concrete inputs *)


Lemma partial_count_bounds_witness :
  fetchBilibiliUserVideos twoOfThree ["1"; "2"; "3"]
    = Done (fetchedOfThree, Some (ErrMissingVideos 1))
  /\ ((1 <= 1)%nat
      /\ (1 < length (buildRequests ["1"; "2"; "3"] []))%nat
      /\ (length (buildRequests ["1"; "2"; "3"] []) <= length ["1"; "2"; "3"])%nat).
Proof.
  assert (H : fetchBilibiliUserVideos twoOfThree ["1"; "2"; "3"]
              = Done (fetchedOfThree, Some (ErrMissingVideos 1)))
    by (vm_compute; reflexivity).
  split; [exact H|].
  exact (partial_count_bounds twoOfThree ["1"; "2"; "3"] fetchedOfThree 1 H).
Defined.

Lemma stored_error_is_one_sentinel_witness :
  aggregate false 100 twoOfThree threeUPs = Done (Failed (ErrMissingVideos 1))
  /\ (update false 100 twoOfThree threeUPs
        = Done (withError threeUPs (Some (ErrFetchFailed (ErrMissingVideos 1))))
      /\ errors_Is (ErrFetchFailed (ErrMissingVideos 1)) errNoContent
         = errors_Is (ErrMissingVideos 1) errNoContent
      /\ errors_Is (ErrFetchFailed (ErrMissingVideos 1)) errPartialContent
         = errors_Is (ErrMissingVideos 1) errPartialContent
      /\ xorb (errors_Is (ErrFetchFailed (ErrMissingVideos 1)) errNoContent)
              (errors_Is (ErrFetchFailed (ErrMissingVideos 1)) errPartialContent)
         = true).
Proof.
  assert (H : aggregate false 100 twoOfThree threeUPs
              = Done (Failed (ErrMissingVideos 1))) by (vm_compute; reflexivity).
  split; [exact H|].
  exact (stored_error_is_one_sentinel false 100 twoOfThree threeUPs
           (ErrMissingVideos 1) H).
Defined.

Lemma fetch_attributes_to_own_source_witness :
  Forall (fun uid => buildable uid = true) ["1"; "2"]
  /\ fetchBilibiliUserVideos twoOfThree ["1"; "2"] = Done (fetchedOfTwo, None)
  /\ forall v, In v fetchedOfTwo ->
       exists i uid it,
         ["1"; "2"] !! i = Some uid
         /\ sourceFailed (answer twoOfThree i (requestOf uid)) = false
         /\ In it (Vlist (fst (answer twoOfThree i (requestOf uid))))
         /\ v = toVideo uid it.
Proof.
  assert (H1 : Forall (fun uid => buildable uid = true) ["1"; "2"])
    by (repeat constructor).
  assert (H2 : fetchBilibiliUserVideos twoOfThree ["1"; "2"]
               = Done (fetchedOfTwo, None)) by (vm_compute; reflexivity).
  split; [exact H1|]. split; [exact H2|].
  exact (fetch_attributes_to_own_source twoOfThree ["1"; "2"] fetchedOfTwo None
           H1 H2).
Defined.

Lemma numeric_uids_all_requested_witness :
  Forall (fun uid => allDigits uid = true) ["1"; "2"; "3"]
  /\ (Forall (fun uid => buildable uid = true) ["1"; "2"; "3"]
      /\ buildRequests ["1"; "2"; "3"] [] = map requestOf ["1"; "2"; "3"]
      /\ length (buildRequests ["1"; "2"; "3"] []) = length ["1"; "2"; "3"]).
Proof.
  assert (H : Forall (fun uid => allDigits uid = true) ["1"; "2"; "3"])
    by (repeat constructor).
  split; [exact H|].
  exact (numeric_uids_all_requested ["1"; "2"; "3"] H).
Defined.

Lemma video_list_stays_sorted_and_limited_witness :
  0 <= Limit twoUPs
  /\ cachedVideos twoUPs <> None
  /\ StronglySorted newerEq (Videos twoUPs)
  /\ Z.of_nat (length (Videos twoUPs)) <= Limit twoUPs
  /\ exists widget',
       updates false twoPasses twoUPs = Done widget'
       /\ StronglySorted newerEq (Videos widget')
       /\ Z.of_nat (length (Videos widget')) <= Limit widget'.
Proof.
  assert (H1 : 0 <= Limit twoUPs) by (vm_compute; discriminate).
  assert (H2 : cachedVideos twoUPs <> None) by (vm_compute; discriminate).
  assert (H3 : StronglySorted newerEq (Videos twoUPs)) by (vm_compute; constructor).
  assert (H4 : Z.of_nat (length (Videos twoUPs)) <= Limit twoUPs)
    by (vm_compute; discriminate).
  split; [exact H1|]. split; [exact H2|]. split; [exact H3|]. split; [exact H4|].
  exact (video_list_stays_sorted_and_limited false twoPasses twoUPs H1 H2 H3 H4).
Defined.

Lemma update_without_map_witness :
  cachedVideos rawWidget = None
  /\ UPs rawWidget <> []
  /\ (fst (staleSources false 100 rawWidget) = map UID (UPs rawWidget)
      /\ (forall vs,
            fetchBilibiliUserVideos oneVideoEach (map UID (UPs rawWidget))
              = Done (vs, None) ->
            update false 100 oneVideoEach rawWidget = Panic)
      /\ (forall vs err,
            fetchBilibiliUserVideos oneVideoEach (map UID (UPs rawWidget))
              = Done (vs, Some err) ->
            update false 100 oneVideoEach rawWidget
              = Done (withError rawWidget (Some (ErrFetchFailed err)))))
  /\ update false 100 oneVideoEach rawWidget = Panic.
Proof.
  assert (H1 : cachedVideos rawWidget = None) by reflexivity.
  assert (H2 : UPs rawWidget <> []) by (vm_compute; discriminate).
  pose proof (update_without_map false 100 oneVideoEach rawWidget H1 H2) as T.
  split; [exact H1|]. split; [exact H2|]. split; [exact T|].
  apply (proj1 (proj2 T) [toVideo "1" (item "a1" 10)]).
  vm_compute. reflexivity.
Defined.

Lemma update_negative_limit_witness :
  Limit negativeLimit < 0
  /\ ((forall cache allVideos,
         aggregate false 100 refuseAll negativeLimit
           = Done (Merged cache allVideos) ->
         update false 100 refuseAll negativeLimit = Panic)
      /\ (forall err,
            aggregate false 100 refuseAll negativeLimit = Done (Failed err) ->
            update false 100 refuseAll negativeLimit
              = Done (withError negativeLimit (Some (ErrFetchFailed err)))))
  /\ update false 100 refuseAll negativeLimit = Panic.
Proof.
  assert (H : Limit negativeLimit < 0) by (vm_compute; reflexivity).
  pose proof (update_negative_limit false 100 refuseAll negativeLimit H) as T.
  split; [exact H|]. split; [exact T|].
  apply (proj1 T (Some ∅) []). vm_compute. reflexivity.
Defined.

Lemma cache_only_grows_witness :
  cachedVideos afterFailedPass = Some (mapOf afterFailedPass)
  /\ update false 200 oneVideoEach afterFailedPass = Done afterSecondPass
  /\ exists m',
       cachedVideos afterSecondPass = Some m'
       /\ (forall uid, is_Some (mapOf afterFailedPass !! uid) ->
                       is_Some (m' !! uid))
       /\ (forall uid,
             ~ In uid (fst (staleSources false 200 afterFailedPass)) ->
             m' !! uid = mapOf afterFailedPass !! uid)
       /\ (forall uid,
             m' !! uid <> mapOf afterFailedPass !! uid ->
             In uid (map UID (UPs afterFailedPass))).
Proof.
  assert (H1 : cachedVideos afterFailedPass = Some (mapOf afterFailedPass))
    by (vm_compute; reflexivity).
  assert (H2 : update false 200 oneVideoEach afterFailedPass
               = Done afterSecondPass) by (vm_compute; reflexivity).
  split; [exact H1|]. split; [exact H2|].
  exact (cache_only_grows false 200 oneVideoEach afterFailedPass afterSecondPass
           (mapOf afterFailedPass) H1 H2).
Defined.

Lemma refreshed_source_fresh_until_expiry_witness :
  aggregate false 200 oneVideoEach afterFailedPass
    = Done (Merged (cacheOf secondPass) (mergedOf secondPass))
  /\ update false 200 oneVideoEach afterFailedPass = Done afterSecondPass
  /\ forall uid, In uid (fst (staleSources false 200 afterFailedPass)) ->
       exists up,
         In up (UPs afterFailedPass) /\ UID up = uid
         /\ 0 < cacheDuration false afterFailedPass up
         /\ forall now',
              now' <= 200 + cacheDuration false afterFailedPass up ->
              ~ In uid (fst (staleSources false now' afterSecondPass)).
Proof.
  assert (H1 : aggregate false 200 oneVideoEach afterFailedPass
               = Done (Merged (cacheOf secondPass) (mergedOf secondPass)))
    by (vm_compute; reflexivity).
  assert (H2 : update false 200 oneVideoEach afterFailedPass
               = Done afterSecondPass) by (vm_compute; reflexivity).
  split; [exact H1|]. split; [exact H2|].
  exact (refreshed_source_fresh_until_expiry 200 oneVideoEach afterFailedPass
           afterSecondPass (cacheOf secondPass) (mergedOf secondPass) H1 H2).
Defined.

Lemma merged_pass_caches_every_source_witness :
  aggregate false 200 oneVideoEach afterFailedPass
    = Done (Merged (cacheOf secondPass) (mergedOf secondPass))
  /\ forall up, In up (UPs afterFailedPass) ->
       is_Some (mapGet (cacheOf secondPass) (UID up)).
Proof.
  assert (H1 : aggregate false 200 oneVideoEach afterFailedPass
               = Done (Merged (cacheOf secondPass) (mergedOf secondPass)))
    by (vm_compute; reflexivity).
  split; [exact H1|].
  exact (merged_pass_caches_every_source false 200 oneVideoEach afterFailedPass
           (cacheOf secondPass) (mergedOf secondPass) H1).
Defined.

Lemma limit_keeps_the_newest_witness :
  0 <= Limit twoUPs
  /\ aggregate false 100 twoOfThree twoUPs
     = Done (Merged (cacheOf passOfTwo) (mergedOf passOfTwo))
  /\ exists widget' dropped,
       update false 100 twoOfThree twoUPs = Done widget'
       /\ Permutation (Videos widget' ++ dropped) (mergedOf passOfTwo)
       /\ (forall kept cut,
             In kept (Videos widget') -> In cut dropped ->
             TimePosted cut <= TimePosted kept)
       /\ StronglySorted newerEq (Videos widget')
       /\ length (Videos widget')
          = Nat.min (Z.to_nat (Limit twoUPs)) (length (mergedOf passOfTwo)).
Proof.
  assert (H1 : 0 <= Limit twoUPs) by (vm_compute; discriminate).
  assert (H2 : aggregate false 100 twoOfThree twoUPs
               = Done (Merged (cacheOf passOfTwo) (mergedOf passOfTwo)))
    by (vm_compute; reflexivity).
  split; [exact H1|]. split; [exact H2|].
  exact (limit_keeps_the_newest false 100 twoOfThree twoUPs (cacheOf passOfTwo)
           (mergedOf passOfTwo) H1 H2).
Defined.

Lemma no_UPs_no_videos_witness :
  UPs noUPs = []
  /\ 0 <= Limit noUPs
  /\ (exists widget',
        update false 100 oneVideoEach noUPs = Done widget'
        /\ Videos widget' = []
        /\ cachedVideos widget' = cachedVideos noUPs
        /\ Error widget' = Error noUPs)
  /\ (Videos noUPs = [] ->
      exists widget',
        Render false 100 oneVideoEach noUPs = Done widget'
        /\ Videos widget' = []
        /\ cachedVideos widget' = cachedVideos noUPs
        /\ Error widget' = Some ErrNoVideoData).
Proof.
  assert (H1 : UPs noUPs = []) by reflexivity.
  assert (H2 : 0 <= Limit noUPs) by (vm_compute; discriminate).
  split; [exact H1|]. split; [exact H2|].
  exact (no_UPs_no_videos false 100 oneVideoEach noUPs H1 H2).
Defined.

Lemma Render_effect_witness :
  Render false 100 refuseAll threeUPs = Done afterRender
  /\ ((Videos threeUPs <> [] -> afterRender = threeUPs)
      /\ (Videos afterRender = [] -> Error afterRender = Some ErrNoVideoData)
      /\ (Error threeUPs <> None -> Error afterRender <> None)
      /\ (forall err,
            Videos threeUPs = [] ->
            aggregate false 100 refuseAll threeUPs = Done (Failed err) ->
            Videos afterRender = [] /\ Error afterRender = Some ErrNoVideoData))
  /\ Error afterRender = Some ErrNoVideoData.
Proof.
  assert (H : Render false 100 refuseAll threeUPs = Done afterRender)
    by (vm_compute; reflexivity).
  pose proof (Render_effect false 100 refuseAll threeUPs afterRender H) as T.
  split; [exact H|]. split; [exact T|].
  apply (proj1 (proj2 T)). vm_compute. reflexivity.
Defined.

Lemma Do_waits_only_as_needed_witness :
  delayed.pace_ok (delayed.mkPace 0 0 0)
  /\ delayed.lastReq earlyClient <= 100
  /\ delayed.delay earlyClient <= time.maxDuration
  /\ exists t,
       delayed.Do refusing earlyClient 100 (delayed.mkPace 0 0 0) (requestOf "1")
       = (delayed.mkClient (delayed.delay earlyClient) t, t,
          delayed.passOn (refusing (requestOf "1")))
       /\ (100 + delayed.arrive (delayed.mkPace 0 0 0)
             - delayed.lastReq earlyClient < delayed.delay earlyClient ->
           t = delayed.lastReq earlyClient + delayed.delay earlyClient
               + delayed.oversleep (delayed.mkPace 0 0 0)
               + delayed.lag (delayed.mkPace 0 0 0))
       /\ (delayed.delay earlyClient
             <= 100 + delayed.arrive (delayed.mkPace 0 0 0)
                - delayed.lastReq earlyClient ->
           t = 100 + delayed.arrive (delayed.mkPace 0 0 0)
               + delayed.lag (delayed.mkPace 0 0 0))
       /\ t - (100 + delayed.arrive (delayed.mkPace 0 0 0))
          <= Z.max 0 (delayed.delay earlyClient)
             + delayed.oversleep (delayed.mkPace 0 0 0)
             + delayed.lag (delayed.mkPace 0 0 0).
Proof.
  assert (H1 : delayed.pace_ok (delayed.mkPace 0 0 0)).
  { unfold delayed.pace_ok. simpl. lia. }
  assert (H2 : delayed.lastReq earlyClient <= 100) by (vm_compute; discriminate).
  assert (H3 : delayed.delay earlyClient <= time.maxDuration)
    by (vm_compute; discriminate).
  split; [exact H1|]. split; [exact H2|]. split; [exact H3|].
  exact (Do_waits_only_as_needed refusing earlyClient 100 (delayed.mkPace 0 0 0)
           (requestOf "1") H1 H2 H3).
Defined.

Lemma first_request_not_delayed_witness :
  delayed.pace_ok (delayed.mkPace 0 0 0)
  /\ delayed.lastReq delayed.bilibiliHTTPClient = delayed.zeroTime
  /\ 0 <= 100
  /\ delayed.delay delayed.bilibiliHTTPClient <= time.maxDuration
  /\ delayed.Do refusing delayed.bilibiliHTTPClient 100 (delayed.mkPace 0 0 0)
       (requestOf "1")
     = (delayed.mkClient (delayed.delay delayed.bilibiliHTTPClient)
          (100 + delayed.arrive (delayed.mkPace 0 0 0)
           + delayed.lag (delayed.mkPace 0 0 0)),
        100 + delayed.arrive (delayed.mkPace 0 0 0)
        + delayed.lag (delayed.mkPace 0 0 0),
        delayed.passOn (refusing (requestOf "1"))).
Proof.
  assert (H1 : delayed.pace_ok (delayed.mkPace 0 0 0)).
  { unfold delayed.pace_ok. simpl. lia. }
  assert (H2 : delayed.lastReq delayed.bilibiliHTTPClient = delayed.zeroTime)
    by reflexivity.
  assert (H3 : 0 <= 100) by lia.
  assert (H4 : delayed.delay delayed.bilibiliHTTPClient <= time.maxDuration)
    by (vm_compute; discriminate).
  split; [exact H1|]. split; [exact H2|]. split; [exact H3|]. split; [exact H4|].
  exact (first_request_not_delayed refusing delayed.bilibiliHTTPClient 100
           (delayed.mkPace 0 0 0) (requestOf "1") H1 H2 H3 H4).
Defined.

Lemma DoAll_total_spacing_witness :
  Forall (fun call => delayed.pace_ok (fst call)) backToBack
  /\ delayed.lastReq delayed.bilibiliHTTPClient <= 0
  /\ delayed.delay delayed.bilibiliHTTPClient <= time.maxDuration
  /\ forall (d i : nat) (t t' : time.Time),
       (delayed.lastReq delayed.bilibiliHTTPClient
          :: delayed.DoAll refusing delayed.bilibiliHTTPClient 0 backToBack)
         !! i = Some t ->
       (delayed.lastReq delayed.bilibiliHTTPClient
          :: delayed.DoAll refusing delayed.bilibiliHTTPClient 0 backToBack)
         !! (i + d)%nat = Some t' ->
       Z.of_nat d * delayed.delay delayed.bilibiliHTTPClient <= t' - t.
Proof.
  assert (H1 : Forall (fun call => delayed.pace_ok (fst call)) backToBack).
  { repeat constructor; simpl; lia. }
  assert (H2 : delayed.lastReq delayed.bilibiliHTTPClient <= 0).
  { vm_compute. discriminate. }
  assert (H3 : delayed.delay delayed.bilibiliHTTPClient <= time.maxDuration).
  { vm_compute. discriminate. }
  split; [exact H1|]. split; [exact H2|]. split; [exact H3|].
  exact (DoAll_total_spacing refusing delayed.bilibiliHTTPClient 0 backToBack
           H1 H2 H3).
Defined.

Lemma suffix_join_exact_witness :
  hasSlash (UID (mkUP "1" 0)) = false
  /\ (forall v, In v twoVideos ->
        exists uid, hasSlash uid = false /\ AuthorUrl v = authorUrl uid)
  /\ upVideosOf twoVideos (mkUP "1" 0)
     = List.filter
         (fun v => String.eqb (AuthorUrl v) (authorUrl (UID (mkUP "1" 0))))
         twoVideos.
Proof.
  assert (H1 : hasSlash (UID (mkUP "1" 0)) = false) by reflexivity.
  assert (H2 : forall v, In v twoVideos ->
                 exists uid, hasSlash uid = false /\ AuthorUrl v = authorUrl uid).
  { intros v [<-|[<-|[]]].
    - exists "1". split; reflexivity.
    - exists "2". split; reflexivity. }
  split; [exact H1|]. split; [exact H2|].
  exact (suffix_join_exact twoVideos (mkUP "1" 0) H1 H2).
Defined.

Lemma suffix_join_overlap_witness :
  UID overlapUP = "x" +:+ "/" +:+ UID (mkUP "1" 0)
  /\ AuthorUrl overlapVideo = authorUrl (UID overlapUP)
  /\ In overlapVideo [overlapVideo]
  /\ In overlapVideo (upVideosOf [overlapVideo] (mkUP "1" 0))
  /\ In overlapVideo (upVideosOf [overlapVideo] overlapUP).
Proof.
  assert (H1 : UID overlapUP = "x" +:+ "/" +:+ UID (mkUP "1" 0)) by reflexivity.
  assert (H2 : AuthorUrl overlapVideo = authorUrl (UID overlapUP)) by reflexivity.
  assert (H3 : In overlapVideo [overlapVideo]) by (left; reflexivity).
  split; [exact H1|]. split; [exact H2|]. split; [exact H3|].
  exact (suffix_join_overlap [overlapVideo] (mkUP "1" 0) overlapUP "x"
           overlapVideo H1 H2 H3).
Defined.

Lemma second_pass_needs_no_network_witness :
  aggregate false 200 oneVideoEach afterFailedPass
    = Done (Merged (cacheOf secondPass) (mergedOf secondPass))
  /\ update false 200 oneVideoEach afterFailedPass = Done afterSecondPass
  /\ fst (staleSources false 200 afterSecondPass) = []
  /\ (forall net1 net2,
        update false 200 net1 afterSecondPass
        = update false 200 net2 afterSecondPass)
  /\ (forall net1 widget'',
        update false 200 net1 afterSecondPass = Done widget'' ->
        cachedVideos widget'' = cachedVideos afterSecondPass).
Proof.
  assert (H1 : aggregate false 200 oneVideoEach afterFailedPass
               = Done (Merged (cacheOf secondPass) (mergedOf secondPass)))
    by (vm_compute; reflexivity).
  assert (H2 : update false 200 oneVideoEach afterFailedPass
               = Done afterSecondPass) by (vm_compute; reflexivity).
  split; [exact H1|]. split; [exact H2|].
  exact (second_pass_needs_no_network 200 oneVideoEach afterFailedPass
           afterSecondPass (cacheOf secondPass) (mergedOf secondPass) H1 H2).
Defined.

(** * Concurrent callers of the delayed client *)

(** The steps of one caller, taken in a row, are [Do] with no time
    passing but its own sleep. *)
Lemma alone_is_Do {R : Type}
  (transport : http.Request -> option R * option error)
  (c : delayed.delayedHTTPClient) (now : time.Time) (req : http.Request) :
  racing.alone c now
  = (fst (fst (delayed.Do transport c now (delayed.mkPace 0 0 0) req)),
     snd (fst (delayed.Do transport c now (delayed.mkPace 0 0 0) req)),
     racing.Issued
       (snd (fst (delayed.Do transport c now (delayed.mkPace 0 0 0) req)))).
Proof.
  unfold racing.alone, delayed.Do, delayed.Sleep.
  cbn [racing.step delayed.arrive delayed.oversleep delayed.lag fst snd].
  rewrite !Z.add_0_r.
  destruct (time.Sub now (delayed.lastReq c) <? delayed.delay c);
    [|reflexivity].
  destruct (Z.leb_spec
              (wrap64 (delayed.delay c - time.Sub now (delayed.lastReq c))) 0)
    as [Hle|Hgt]; cbn [racing.step delayed.delay delayed.lastReq].
  - rewrite !Z.add_0_r. reflexivity.
  - rewrite Z.max_r by lia. reflexivity.
Qed.

(** C8, what the code does.  Two workers enter [Do] on the shared
    client at the same time.  When both read [lastReq] before either
    writes it, both compute the same wait, and both requests are issued
    at the same instant, half a second after the last one: the gap
    between them is zero, less than the delay.  The same holds at the
    start of the program, when neither waits.  Only when the second
    worker enters [Do] after the first has issued its request are the two
    requests half a second apart. *)
Theorem two_workers_issue_together :
  racing.issueTimes (racing.run racing.interleaved racing.twoWorkers)
    = [Some 500000000; Some 500000000]
  /\ racing.issueTimes
       (racing.run racing.interleaved racing.twoWorkersAtStart)
     = [Some 100; Some 100]
  /\ delayed.delay (racing.client racing.twoWorkers) = 500000000
  /\ racing.issueTimes (racing.run racing.oneAfterTheOther racing.twoWorkers)
     = [Some 500000000; Some 1000000000].
Proof.
  split; [vm_compute; reflexivity|].
  split; [vm_compute; reflexivity|].
  split; vm_compute; reflexivity.
Qed.
